(** * File synchronisation store, pull API and event dedup cache

    A shallow embedding of the NestJS services of the repository:
    [FileService] (file.service.ts), [FileController] (file.controller.ts)
    and [FeishuService] (feishu.service.ts).

    The services are stateful and talk to the file system and to the chat
    platform.  The embedding threads one explicit [State] through every
    operation: the in-memory fields of the two services, the file system as
    a finite map from paths to contents, the log of file-system calls in the
    order they were issued, and the messages handed to the platform.
    Failures the program cannot decide itself (a denied write, a network
    error) are inputs: every operation takes the faults to inject. *)

From Stdlib Require Import ZArith String List Bool Lia.
From stdpp Require Import base option list strings gmap.
Import ListNotations.
Local Open Scope Z_scope.

(** ** Data model *)

(** [enum FileStatus] of file.service.ts. *)
Inductive FileStatus := Pending | Completed | Failed | Expired.

#[global] Instance FileStatus_eq_dec : EqDecision FileStatus.
Proof. solve_decision. Defined.

(** [interface FileRecord]. *)
Record FileRecord := mkFileRecord {
  fileKey : string;
  fileName : string;
  status : FileStatus;
  timestamp : Z
}.

#[global] Instance FileRecord_eq_dec : EqDecision FileRecord.
Proof. solve_decision. Defined.

(** What a file holds.  [Snapshot l] is the text [JSON.stringify(l, null, 2)];
    [Bytes d] is any content on which [JSON.parse] throws (a photo, a video,
    a torn write). *)
Inductive Content :=
| Bytes (data : string)
| Snapshot (records : list FileRecord).

(** Calls into Node's [fs], logged with whether they resolved. *)
Inductive IoCall :=
| Rename (src dst : string)
| WriteFile (path : string)
| ReadFile (path : string)
| Unlink (path : string)
| ReadStream (path : string).

Inductive IoEvent := Io (call : IoCall) (resolved : bool).

(** Environment failures injected into one operation (EACCES, EIO, ...).
    A failing call leaves the file system as it was. *)
Record Faults := mkFaults {
  rename_fault : bool;
  write_fault : bool;
  read_fault : bool;
  unlink_fault : bool;
  stream_fault : bool
}.

Definition no_faults : Faults := mkFaults false false false false false.

(** Text messages the bot sends; each constructor is one message template
    of feishu.service.ts with its interpolated values. *)
Inductive Reply :=
| ReplyReceived (fileName : string)
| ReplyDownloaded (fileName : string)
| ReplyDownloadFailed (fileName message : string)
| ReplyNotFoundOrExpired (fileName : string)
| ReplyGreeting (text : option string)
| ReplyUnexpected (message : string).

Record Sent := mkSent {
  to_chat : string;
  reply : Reply;
  delivered : bool
}.

(** Paths and directories come from the configuration and the working
    directory; [path_join] is Node's [path.join]. *)
Record Config := mkConfig {
  path_join : string -> string -> string;
  FILE_MEDIA_DIR : string;
  FILE_DATA_FILE : string;
  TEMP_DIR : string
}.

(** [EVENT_EXPIRY_MS = 10 * 60 * 1000]. *)
Definition EVENT_EXPIRY_MS : Z := 10 * 60 * 1000.

(** The whole process state. *)
Record State := mkState {
  files : list FileRecord;            (* FileService.files *)
  processedEvents : gset string;      (* FeishuService.processedEvents *)
  timers : list (Z * string);         (* pending setTimeout callbacks: due time, event id *)
  disk : gmap string Content;         (* the file system *)
  trace : list IoEvent;               (* fs calls, oldest first *)
  outbox : list Sent                  (* im.v1.message.create calls, oldest first *)
}.

Definition initial_state : State := mkState [] ∅ [] ∅ [] [].

Definition with_files (l : list FileRecord) (st : State) : State :=
  mkState l (processedEvents st) (timers st) (disk st) (trace st) (outbox st).

Definition with_disk (d : gmap string Content) (st : State) : State :=
  mkState (files st) (processedEvents st) (timers st) d (trace st) (outbox st).

Definition with_dedup (s : gset string) (t : list (Z * string)) (st : State) : State :=
  mkState (files st) s t (disk st) (trace st) (outbox st).

Definition record_io (e : IoEvent) (st : State) : State :=
  mkState (files st) (processedEvents st) (timers st) (disk st) (trace st ++ [e]) (outbox st).

Definition record_sent (m : Sent) (st : State) : State :=
  mkState (files st) (processedEvents st) (timers st) (disk st) (trace st) (outbox st ++ [m]).

(** How the promise of an [async] function settles. *)
Inductive Settled (A E : Type) :=
| Resolved (a : A)
| Rejected (e : E).

Arguments Resolved {A E} a.
Arguments Rejected {A E} e.

(** JavaScript truthiness of a string, and of a possibly undefined one. *)
Definition truthy (s : string) : bool :=
  match s with EmptyString => false | _ => true end.

Definition truthy_opt (o : option string) : option string :=
  match o with
  | Some s => if truthy s then Some s else None
  | None => None
  end.

(** ** Node's [fs] *)

Module NodeFs.

(** [fs.rename(src, dst)]: rejects when [src] does not exist. *)
Definition rename (fault : bool) (src dst : string) (st : State) : bool * State :=
  match (if fault then None else disk st !! src) with
  | Some c =>
      (true, record_io (Io (Rename src dst) true)
               (with_disk (<[dst := c]> (delete src (disk st))) st))
  | None => (false, record_io (Io (Rename src dst) false) st)
  end.

(** [fs.writeFile(path, data)]: creates or replaces the file. *)
Definition writeFile (fault : bool) (path : string) (c : Content) (st : State)
  : bool * State :=
  if fault then (false, record_io (Io (WriteFile path) false) st)
  else (true, record_io (Io (WriteFile path) true) (with_disk (<[path := c]> (disk st)) st)).

(** [fs.readFile(path)]: rejects when the file does not exist. *)
Definition readFile (fault : bool) (path : string) (st : State)
  : option Content * State :=
  match (if fault then None else disk st !! path) with
  | Some c => (Some c, record_io (Io (ReadFile path) true) st)
  | None => (None, record_io (Io (ReadFile path) false) st)
  end.

(** [fs.unlink(path)]: rejects when the file does not exist. *)
Definition unlink (fault : bool) (path : string) (st : State) : bool * State :=
  match (if fault then None else disk st !! path) with
  | Some _ =>
      (true, record_io (Io (Unlink path) true) (with_disk (delete path (disk st)) st))
  | None => (false, record_io (Io (Unlink path) false) st)
  end.

(** [createReadStream(path)] read to its end: the bytes on ['end'], nothing
    on ['error']. *)
Definition createReadStream (fault : bool) (path : string) (st : State)
  : option Content * State :=
  match (if fault then None else disk st !! path) with
  | Some c => (Some c, record_io (Io (ReadStream path) true) st)
  | None => (None, record_io (Io (ReadStream path) false) st)
  end.

End NodeFs.

(** ** FileService (file.service.ts) *)

Module FileService.

Section WithConfig.
Context (cfg : Config).

(** [saveState]: rewrites the whole collection; a failure is caught and logged. *)
Definition saveState (f : Faults) (st : State) : State :=
  snd (NodeFs.writeFile (write_fault f) (FILE_DATA_FILE cfg) (Snapshot (files st)) st).

(** [loadState]: replaces [files] by what the data file holds; a missing
    file, a failed read and a parse error are caught and leave [files]. *)
Definition loadState (f : Faults) (st : State) : State :=
  match NodeFs.readFile (read_fault f) (FILE_DATA_FILE cfg) st with
  | (Some (Snapshot l), st') => with_files l st'
  | (Some (Bytes _), st') => st'
  | (None, st') => st'
  end.

(** [addFile(sourceFilePath, originalFileName)].  [uuid] is the value of
    [crypto.randomUUID()] and [now] that of [Date.now()].  The [catch] block
    logs and falls through, so both paths resolve to undefined; a rejection
    would carry the error's message. *)
Definition addFile (f : Faults) (uuid : string) (now : Z)
    (sourceFilePath originalFileName : string) (st : State)
  : Settled unit string * State :=
  let localFileKey := uuid in
  let localFileName := if truthy originalFileName then originalFileName else localFileKey in
  let destinationFilePath := path_join cfg (FILE_MEDIA_DIR cfg) localFileName in
  let newRecord := mkFileRecord localFileKey localFileName Pending now in
  match NodeFs.rename (rename_fault f) sourceFilePath destinationFilePath st with
  | (true, st1) =>
      let st2 := with_files (files st1 ++ [newRecord]) st1 in
      (Resolved tt, saveState f st2)
  | (false, st1) => (Resolved tt, st1)
  end.

Definition isPending (r : FileRecord) : bool :=
  bool_decide (status r = Pending).

(** [getPendingFiles]. *)
Definition getPendingFiles (f : Faults) (st : State) : list FileRecord * State :=
  let st' := loadState f st in
  (List.filter isPending (files st'), st').

(** [this.files.find((f) => f.fileKey === fileKey)]. *)
Definition findByKey (key : string) (l : list FileRecord) : option FileRecord :=
  List.find (fun r => String.eqb (fileKey r) key) l.

(** [getFilePath]. *)
Definition getFilePath (key : string) (st : State) : option string :=
  match findByKey key (files st) with
  | Some file => Some (path_join cfg (FILE_MEDIA_DIR cfg) (fileName file))
  | None => None
  end.

Definition setStatus (s : FileStatus) (r : FileRecord) : FileRecord :=
  mkFileRecord (fileKey r) (fileName r) s (timestamp r).

(** [file.status = status] on the object [find] returned: the first record
    with the key is updated where it sits in the array. *)
Fixpoint assignStatus (key : string) (s : FileStatus) (l : list FileRecord)
  : list FileRecord :=
  match l with
  | [] => []
  | r :: rest =>
      if String.eqb (fileKey r) key then setStatus s r :: rest
      else r :: assignStatus key s rest
  end.

Definition isTerminal (s : FileStatus) : bool :=
  match s with
  | Completed | Failed => true
  | Pending | Expired => false
  end.

(** [updateFileStatus]. *)
Definition updateFileStatus (f : Faults) (key : string) (s : FileStatus) (st : State)
  : bool * State :=
  match findByKey key (files st) with
  | Some _ =>
      let st1 := with_files (assignStatus key s (files st)) st in
      let st2 := saveState f st1 in
      let st3 :=
        if isTerminal s then
          match getFilePath key st2 with
          | Some filePath => snd (NodeFs.unlink (unlink_fault f) filePath st2)
          | None => st2
          end
        else st2 in
      (true, st3)
  | None => (false, st)
  end.

End WithConfig.

End FileService.

(** ** FileController (file.controller.ts) *)

Module FileController.

Inductive ServerFault := InvalidRequestBody | ReadFromDiskFailed.

(** The two exceptions the controller throws, with what identifies them. *)
Inductive HttpException :=
| NotFoundException (key : string)
| InternalServerErrorException (why : ServerFault).

(** The JSON body of [POST sync/status]; a field may be missing. *)
Record StatusBody := mkStatusBody {
  body_fileKey : option string;
  body_status : option FileStatus
}.

Section WithConfig.
Context (cfg : Config).

(** [GET sync/files]. *)
Definition getFiles (f : Faults) (st : State) : list FileRecord * State :=
  FileService.getPendingFiles cfg f st.

(** [GET sync/download/:fileKey]. *)
Definition downloadFile (f : Faults) (key : string) (st : State)
  : Settled Content HttpException * State :=
  match FileService.getFilePath cfg key st with
  | None => (Rejected (NotFoundException key), st)
  | Some filePath =>
      match NodeFs.createReadStream (stream_fault f) filePath st with
      | (Some c, st') => (Resolved c, st')
      | (None, st') => (Rejected (InternalServerErrorException ReadFromDiskFailed), st')
      end
  end.

(** [POST sync/status]: the acknowledgement names the key and the status. *)
Definition updateStatus (f : Faults) (body : StatusBody) (st : State)
  : Settled (string * FileStatus) HttpException * State :=
  match truthy_opt (body_fileKey body), body_status body with
  | Some key, Some s =>
      match FileService.updateFileStatus cfg f key s st with
      | (true, st') => (Resolved (key, s), st')
      | (false, st') => (Rejected (NotFoundException key), st')
      end
  | _, _ => (Rejected (InternalServerErrorException InvalidRequestBody), st)
  end.

End WithConfig.

End FileController.

(** ** FeishuService (feishu.service.ts) *)

Module FeishuService.

(** [params.type] of [messageResource.get]. *)
Inductive ResourceType := ResImage | ResFile.

(** What [messageResource.get] does: a response whose body can be written
    to a file, or an error with a message and, for HTTP errors, a status. *)
Inductive FetchResult :=
| FetchOk (data : string)
| FetchError (message : string) (httpStatus : option Z).

(** The chat platform during one delivery.  [send_fails n] tells whether the
    [n]-th call of [message.create] of the process is rejected. *)
Record Platform := mkPlatform {
  send_fails : nat -> bool;
  send_error : string;
  fetch : string -> string -> ResourceType -> FetchResult;
  temp_write_error : option string
}.

(** The object [JSON.parse(content)] yields. *)
Record ParsedContent := mkParsedContent {
  image_key : option string;
  file_key : option string;
  file_name : option string;
  text : option string
}.

(** The payload of [im.message.receive_v1].  [content] is [inl msg] when
    [JSON.parse] throws an error with message [msg]. *)
Record MessageEvent := mkMessageEvent {
  event_id : option string;
  chat_id : string;
  message_id : string;
  message_type : string;
  content : string + ParsedContent
}.

(** How a delivery ends: suppressed by the dedup gate, handled, or with the
    handler's promise rejected (the [catch] block's own send failed). *)
Inductive Outcome := IgnoredDuplicate | Handled | Unhandled.

(** Runs the [setTimeout] callbacks that are due at [now]: each deletes its
    event id from [processedEvents]. *)
Definition runTimers (now : Z) (st : State) : State :=
  let due := List.filter (fun t => fst t <=? now) (timers st) in
  let later := List.filter (fun t => now <? fst t) (timers st) in
  with_dedup (processedEvents st ∖ list_to_set (List.map snd due)) later st.

(** [isEventProcessed], called at time [now]. *)
Definition isEventProcessed (now : Z) (eventId : string) (st : State) : bool * State :=
  if bool_decide (eventId ∈ processedEvents st) then (true, st)
  else
    (false,
     with_dedup ({[eventId]} ∪ processedEvents st)
                (timers st ++ [(now + EVENT_EXPIRY_MS, eventId)]) st).

(** [client.im.v1.message.create]: [true] when it resolves. *)
Definition messageCreate (p : Platform) (chat : string) (r : Reply) (st : State)
  : bool * State :=
  let sent := negb (send_fails p (length (outbox st))) in
  (sent, record_sent (mkSent chat r sent) st).

(** [replyToUser]: a rejected send is caught and logged. *)
Definition replyToUser (p : Platform) (chat : string) (r : Reply) (st : State) : State :=
  snd (messageCreate p chat r st).

Section WithConfig.
Context (cfg : Config).

(** [processFileMessage]. *)
Definition processFileMessage (p : Platform)
    (chat message fileKey fileName : string) (resourceType : ResourceType)
    (st : State) : State :=
  let st1 := replyToUser p chat (ReplyReceived fileName) st in
  match fetch p message fileKey resourceType with
  | FetchOk data =>
      let localFilePath := path_join cfg (TEMP_DIR cfg) fileName in
      match temp_write_error p with
      | None =>
          let st2 := snd (NodeFs.writeFile false localFilePath (Bytes data) st1) in
          replyToUser p chat (ReplyDownloaded fileName) st2
      | Some msg =>
          let st2 := snd (NodeFs.writeFile true localFilePath (Bytes data) st1) in
          replyToUser p chat (ReplyDownloadFailed fileName msg) st2
      end
  | FetchError msg httpStatus =>
      if bool_decide (httpStatus = Some 404)
      then replyToUser p chat (ReplyNotFoundOrExpired fileName) st1
      else replyToUser p chat (ReplyDownloadFailed fileName msg) st1
  end.

(** [parsedContent.file_name || `${fileKey}<ext>`]. *)
Definition nameOr (declared : option string) (fileKey ext : string) : string :=
  match truthy_opt declared with
  | Some n => n
  | None => fileKey ++ ext
  end.

(** The [try] block of the handler: [None] when it completes, [Some msg]
    when it throws an error with message [msg]. *)
Definition dispatch (p : Platform) (ev : MessageEvent) (st : State)
  : option string * State :=
  match content ev with
  | inl parseError => (Some parseError, st)
  | inr parsedContent =>
      if String.eqb (message_type ev) "image" then
        match truthy_opt (image_key parsedContent) with
        | Some fileKey =>
            (None, processFileMessage p (chat_id ev) (message_id ev) fileKey
                     (nameOr (file_name parsedContent) fileKey ".jpg") ResImage st)
        | None => (Some "Image key is missing in the message content.", st)
        end
      else if String.eqb (message_type ev) "media" then
        match truthy_opt (file_key parsedContent) with
        | Some fileKey =>
            (None, processFileMessage p (chat_id ev) (message_id ev) fileKey
                     (nameOr (file_name parsedContent) fileKey ".mp4") ResFile st)
        | None => (Some "Media file key is missing in the message content.", st)
        end
      else if String.eqb (message_type ev) "file" then
        match truthy_opt (file_key parsedContent) with
        | Some fileKey =>
            (None, processFileMessage p (chat_id ev) (message_id ev) fileKey
                     (nameOr (file_name parsedContent) fileKey EmptyString) ResFile st)
        | None => (Some "File key is missing in the message content.", st)
        end
      else
        match messageCreate p (chat_id ev) (ReplyGreeting (text parsedContent)) st with
        | (true, st') => (None, st')
        | (false, st') => (Some (send_error p), st')
        end
  end.

(** The handler past the dedup gate: the [try] block and its [catch], whose
    own send is not guarded. *)
Definition pipeline (p : Platform) (ev : MessageEvent) (st : State) : Outcome * State :=
  match dispatch p ev st with
  | (None, st') => (Handled, st')
  | (Some msg, st') =>
      match messageCreate p (chat_id ev) (ReplyUnexpected msg) st' with
      | (true, st'') => (Handled, st'')
      | (false, st'') => (Unhandled, st'')
      end
  end.

(** The handler registered for [im.message.receive_v1], for a delivery at
    time [now]; the timers due by then have run. *)
Definition onMessage (p : Platform) (now : Z) (ev : MessageEvent) (st : State)
  : Outcome * State :=
  let st0 := runTimers now st in
  match truthy_opt (event_id ev) with
  | Some eventId =>
      match isEventProcessed now eventId st0 with
      | (true, st1) => (IgnoredDuplicate, st1)
      | (false, st1) => pipeline p ev st1
      end
  | None => pipeline p ev st0
  end.

(** A sequence of deliveries, each with its platform behaviour and time. *)
Fixpoint deliverAll (ds : list (Platform * Z * MessageEvent)) (st : State)
  : list Outcome * State :=
  match ds with
  | [] => ([], st)
  | (p, now, ev) :: rest =>
      let (o, st1) := onMessage p now ev st in
      let (os, st2) := deliverAll rest st1 in
      (o :: os, st2)
  end.

End WithConfig.

End FeishuService.

(** ** The standalone bot (index.js) *)

Module IndexJs.

(** The interactive card the bot answers with; its title quotes the [text]
    property of the parsed content, which may be undefined. *)
Record Card := mkCard {
  card_chat : string;
  card_text : option string;
  card_delivered : bool
}.

(** The globals of the script and the cards handed to the platform.  An
    event delivered without [event_id] has the id [undefined], here [None]: a
    JavaScript [Set] holds it like any other value. *)
Record Bot := mkBot {
  processedEvents : gset (option string);
  timers : list (Z * option string);
  cards : list Card
}.

Definition start : Bot := mkBot ∅ [] [].

(** The payload of [im.message.receive_v1] as the script reads it.  [content]
    is the value of [JSON.parse(content).text], [None] when evaluating it
    throws. *)
Record MessageEvent := mkMessageEvent {
  event_id : option string;
  chat_id : string;
  content : option (option string)
}.

(** How a delivery ends: suppressed, answered, or with the handler's promise
    rejected. *)
Inductive Outcome := IgnoredDuplicate | Answered | Unhandled.

(** The [setTimeout] callbacks due at [now]. *)
Definition runTimers (now : Z) (b : Bot) : Bot :=
  let due := List.filter (fun t => fst t <=? now) (timers b) in
  let later := List.filter (fun t => now <? fst t) (timers b) in
  mkBot (processedEvents b ∖ list_to_set (List.map snd due)) later (cards b).

(** [isEventProcessed], called at time [now]. *)
Definition isEventProcessed (now : Z) (eventId : option string) (b : Bot) : bool * Bot :=
  if bool_decide (eventId ∈ processedEvents b) then (true, b)
  else
    (false,
     mkBot ({[eventId]} ∪ processedEvents b)
           (timers b ++ [(now + EVENT_EXPIRY_MS, eventId)]) (cards b)).

(** The handler: the dedup check, then the card.  The title is evaluated
    before [message.create] is called, so a content that does not parse
    rejects the handler with nothing sent; so does a send that fails.
    [send_fails n] tells whether the [n]-th send of the process is rejected. *)
Definition onMessage (send_fails : nat -> bool) (now : Z) (ev : MessageEvent) (b : Bot)
  : Outcome * Bot :=
  match isEventProcessed now (event_id ev) (runTimers now b) with
  | (true, b1) => (IgnoredDuplicate, b1)
  | (false, b1) =>
      match content ev with
      | None => (Unhandled, b1)
      | Some text =>
          let sent := negb (send_fails (length (cards b1))) in
          (if sent then Answered else Unhandled,
           mkBot (processedEvents b1) (timers b1)
                 (cards b1 ++ [mkCard (chat_id ev) text sent]))
      end
  end.

Fixpoint deliverAll (ds : list ((nat -> bool) * Z * MessageEvent)) (b : Bot)
  : list Outcome * Bot :=
  match ds with
  | [] => ([], b)
  | (send_fails, now, ev) :: rest =>
      let (o, b1) := onMessage send_fails now ev b in
      let (os, b2) := deliverAll rest b1 in
      (o :: os, b2)
  end.

(** Every pending timer belongs to a remembered id and no id has two. *)
Definition cache_wf (b : Bot) : Prop :=
  NoDup (List.map snd (timers b)) /\
  forall due id, In (due, id) (timers b) -> id ∈ processedEvents b.

(** [eventId] is remembered and its one expiry is the one set at [t0]. *)
Definition armed (t0 : Z) (eventId : option string) (b : Bot) : Prop :=
  eventId ∈ processedEvents b /\
  In (t0 + EVENT_EXPIRY_MS, eventId) (timers b) /\
  forall due, In (due, eventId) (timers b) -> due = t0 + EVENT_EXPIRY_MS.

End IndexJs.

(** ** Vocabulary of the properties *)

(** No two records of the collection carry the same [fileKey]. *)
Definition unique_keys (l : list FileRecord) : Prop :=
  NoDup (List.map fileKey l).

(** The blob of a record: [path.join(FILE_MEDIA_DIR, fileName)]. *)
Definition blobPath (cfg : Config) (r : FileRecord) : string :=
  path_join cfg (FILE_MEDIA_DIR cfg) (fileName r).

(** Every pending timer belongs to a remembered event id, and no id has two
    timers: what [isEventProcessed] and the timer callbacks maintain. *)
Definition dedup_wf (st : State) : Prop :=
  NoDup (List.map snd (timers st)) /\
  forall due id, In (due, id) (timers st) -> id ∈ processedEvents st.

(** [eventId] is remembered and its one expiry is the one set at [t0]. *)
Definition armed (t0 : Z) (eventId : string) (st : State) : Prop :=
  eventId ∈ processedEvents st /\
  In (t0 + EVENT_EXPIRY_MS, eventId) (timers st) /\
  forall due, In (due, eventId) (timers st) -> due = t0 + EVENT_EXPIRY_MS.

(** The fields a suppressed delivery must leave alone. *)
Definition same_effects (st st' : State) : Prop :=
  files st' = files st /\ disk st' = disk st /\
  trace st' = trace st /\ outbox st' = outbox st.

(** A write of a downloaded resource into the staging directory. *)
Definition staging_write (cfg : Config) (e : IoEvent) : Prop :=
  exists name ok, e = Io (WriteFile (path_join cfg (TEMP_DIR cfg) name)) ok.

(** What the handler past the gate may change: it sends messages and writes
    staging files.  The record collection, the remembered event ids and their
    timers stay, and nothing but staging writes is issued to the file system. *)
Definition handler_frame (cfg : Config) (st st' : State) : Prop :=
  files st' = files st /\
  processedEvents st' = processedEvents st /\
  timers st' = timers st /\
  (length (outbox st) <= length (outbox st'))%nat /\
  exists l, trace st' = trace st ++ l /\ Forall (staging_write cfg) l.

#[global] Instance IoCall_eq_dec : EqDecision IoCall.
Proof. solve_decision. Defined.

(** The place of the first call [c] in a log. *)
Fixpoint position (c : IoCall) (l : list IoEvent) : option nat :=
  match l with
  | [] => None
  | Io c' _ :: rest =>
      if decide (c' = c) then Some 0%nat else S <$> position c rest
  end.

(** Both calls were issued, [a] before [b]. *)
Definition issued_before (a b : IoCall) (l : list IoEvent) : bool :=
  match position a l, position b l with
  | Some i, Some j => (i <? j)%nat
  | _, _ => false
  end.

(** ** A sample deployment, to evaluate the model on *)

Definition posix_join (dir name : string) : string := dir ++ "/" ++ name.

Definition sample_cfg : Config :=
  mkConfig posix_join "/srv/_data/file_media"
           "/srv/_data/file_data/feishu_files.json" "/srv/temp_uploads".

Definition photo : FileRecord := mkFileRecord "k1" "photo.jpg" Pending 1700000000000.

(** One Pending record, its blob in the media directory, the snapshot on disk. *)
Definition sample_store : State :=
  mkState [photo] ∅ []
          (<["/srv/_data/file_media/photo.jpg" := Bytes "JFIF"]>
             (<["/srv/_data/file_data/feishu_files.json" := Snapshot [photo]]> ∅))
          [] [].

(** A platform on which every call succeeds and every resource is there. *)
Definition sample_platform : FeishuService.Platform :=
  FeishuService.mkPlatform (fun _ => false) "socket hang up"
    (fun _ _ _ => FeishuService.FetchOk "JFIF") None.

Definition image_event (eventId : option string) : FeishuService.MessageEvent :=
  FeishuService.mkMessageEvent eventId "oc_chat" "om_1" "image"
    (inr (FeishuService.mkParsedContent (Some "abc123") None (Some "photo.jpg") None)).

(** The file system refuses the deletion of the blob. *)
Definition unlink_refused : Faults := mkFaults false false false true false.

(** The file system refuses the rewrite of the data file. *)
Definition write_refused : Faults := mkFaults false true false false false.

(** [sample_store] once the puller has reported Completed for the photo. *)
Definition sample_store_completed : State :=
  snd (FileService.updateFileStatus sample_cfg no_faults "k1" Completed sample_store).

(** Two resources staged in the temporary directory, no record yet. *)
Definition staged_pair : State :=
  with_disk (<["/srv/temp_uploads/a" := Bytes "first"]>
               (<["/srv/temp_uploads/b" := Bytes "second"]> ∅)) initial_state.

(** A collection in which two records carry the same key. *)
Definition photo_twin : FileRecord := mkFileRecord "k1" "copy.jpg" Pending 1700000000001.

Definition twin_store : State := with_files [photo; photo_twin] sample_store.

(** ** Sequences of store calls *)

(** A mutating call of the FileService with its arguments and the faults it
    meets. *)
Inductive StoreCall :=
| CallAddFile (f : Faults) (uuid : string) (now : Z) (src name : string)
| CallUpdateFileStatus (f : Faults) (key : string) (s : FileStatus).

Definition runCall (cfg : Config) (c : StoreCall) (st : State) : State :=
  match c with
  | CallAddFile f uuid now src name =>
      snd (FileService.addFile cfg f uuid now src name st)
  | CallUpdateFileStatus f key s =>
      snd (FileService.updateFileStatus cfg f key s st)
  end.

(** The calls one after the other, each awaited before the next. *)
Definition runCalls (cfg : Config) (cs : list StoreCall) (st : State) : State :=
  fold_left (fun st c => runCall cfg c st) cs st.

(** The same record up to its status. *)
Definition same_identity (a b : FileRecord) : Prop :=
  fileKey b = fileKey a /\ fileName b = fileName a /\ timestamp b = timestamp a.

(** [l'] is [l] with statuses possibly changed, followed by further records. *)
Definition grows_from (l l' : list FileRecord) : Prop :=
  exists kept added, l' = kept ++ added /\ Forall2 same_identity l kept.

(** The time of a delivery. *)
Definition delivery_time
    (d : FeishuService.Platform * Z * FeishuService.MessageEvent) : Z :=
  snd (fst d).

(** The event is an image, media or file message whose content parses and
    names its resource: the three cases in which the handler calls
    [processFileMessage]. *)
Definition carries_file (ev : FeishuService.MessageEvent) : bool :=
  match FeishuService.content ev with
  | inl _ => false
  | inr parsedContent =>
      if String.eqb (FeishuService.message_type ev) "image"
      then bool_decide (is_Some (truthy_opt (FeishuService.image_key parsedContent)))
      else if String.eqb (FeishuService.message_type ev) "media"
      then bool_decide (is_Some (truthy_opt (FeishuService.file_key parsedContent)))
      else if String.eqb (FeishuService.message_type ev) "file"
      then bool_decide (is_Some (truthy_opt (FeishuService.file_key parsedContent)))
      else false
  end.

(** The dedup cache after the deliveries [ds]: the remembered ids are those
    of the pending timers, one timer each, and the timers are, in order, among
    the expiries the deliveries could have set. *)
Definition tracked
    (ds : list (FeishuService.Platform * Z * FeishuService.MessageEvent))
    (st : State) : Prop :=
  NoDup (List.map snd (timers st)) /\
  processedEvents st = list_to_set (List.map snd (timers st)) /\
  List.map fst (timers st)
    `sublist_of` List.map (fun d => delivery_time d + EVENT_EXPIRY_MS) ds.

(** [sample_store] with one more resource staged in the temporary directory. *)
Definition sample_store_staged : State :=
  with_disk (<["/srv/temp_uploads/b" := Bytes "second"]> (disk sample_store)) sample_store.

(** A second record that was taken over under the photo's name. *)
Definition photo_again : FileRecord :=
  mkFileRecord "k2" "photo.jpg" Pending 1700000000002.

Definition shared_store : State := with_files [photo; photo_again] sample_store.

(** * Properties *)

(** ** The record collection *)

Section RecordLemmas.
Import FileService.

Lemma findByKey_Some key l r :
  findByKey key l = Some r -> fileKey r = key /\ In r l.
Proof.
  unfold findByKey. intros H. apply find_some in H as [Hin Heq].
  apply String.eqb_eq in Heq. auto.
Qed.

Lemma findByKey_None key l r :
  findByKey key l = None -> In r l -> fileKey r <> key.
Proof.
  unfold findByKey. intros H Hin Heq.
  apply (find_none _ _ H) in Hin. apply String.eqb_neq in Hin. auto.
Qed.

Lemma findByKey_unique l r :
  unique_keys l -> In r l -> findByKey (fileKey r) l = Some r.
Proof.
  unfold unique_keys, findByKey.
  induction l as [|x l IH]; simpl; intros Hnd Hin; [easy|].
  inversion Hnd as [|? ? Hx Hl]; subst.
  destruct Hin as [->|Hin].
  - now rewrite String.eqb_refl.
  - destruct (String.eqb_spec (fileKey x) (fileKey r)) as [Heq|Hne]; [|auto].
    exfalso. apply Hx. rewrite Heq. now apply list_elem_of_In, in_map.
Qed.

Lemma findByKey_assignStatus key s l r :
  findByKey key l = Some r ->
  findByKey key (assignStatus key s l) = Some (setStatus s r).
Proof.
  unfold findByKey. induction l as [|x l IH]; simpl; [easy|].
  destruct (String.eqb (fileKey x) key) eqn:E; simpl.
  - intros [= ->]. now rewrite E.
  - intros H. rewrite E. auto.
Qed.

Lemma findByKey_app_l key l l' r :
  findByKey key l = Some r -> findByKey key (l ++ l') = Some r.
Proof.
  unfold findByKey. induction l as [|x l IH]; simpl; [easy|].
  destruct (String.eqb (fileKey x) key); auto.
Qed.

Lemma findByKey_app_r key l l' :
  findByKey key l = None -> findByKey key (l ++ l') = findByKey key l'.
Proof.
  unfold findByKey. induction l as [|x l IH]; simpl; [easy|].
  destruct (String.eqb (fileKey x) key); [easy|auto].
Qed.

(** After the assignment, a record with the key carries the new status,
    provided keys are unique. *)
Lemma assignStatus_In key s l x :
  unique_keys l -> In x (assignStatus key s l) -> fileKey x = key -> status x = s.
Proof.
  unfold unique_keys. induction l as [|y l IH]; simpl; [easy|].
  intros Hnd Hin Hk. inversion Hnd as [|? ? Hy Hl]; subst.
  destruct (String.eqb_spec (fileKey y) (fileKey x)) as [Heq|Hne].
  - destruct Hin as [<-|Hin]; [easy|].
    exfalso. apply Hy. rewrite Heq. now apply list_elem_of_In, in_map.
  - destruct Hin as [->|Hin]; [easy|]. now apply IH.
Qed.

End RecordLemmas.

(** ** The operations of the store, step by step *)

Section StoreLemmas.
Context (cfg : Config).
Import FileService.

Lemma saveState_files f st : files (saveState cfg f st) = files st.
Proof. unfold saveState, NodeFs.writeFile. now destruct (write_fault f). Qed.

Lemma saveState_trace f st :
  trace (saveState cfg f st) =
  trace st ++ [Io (WriteFile (FILE_DATA_FILE cfg)) (negb (write_fault f))].
Proof. unfold saveState, NodeFs.writeFile. now destruct (write_fault f). Qed.

Lemma saveState_disk f st :
  disk (saveState cfg f st) =
  if write_fault f then disk st
  else <[FILE_DATA_FILE cfg := Snapshot (files st)]> (disk st).
Proof. unfold saveState, NodeFs.writeFile. now destruct (write_fault f). Qed.

Lemma unlink_files fault p st : files (snd (NodeFs.unlink fault p st)) = files st.
Proof. unfold NodeFs.unlink. now destruct (if fault then None else disk st !! p). Qed.

Lemma unlink_trace fault p st :
  exists ok, trace (snd (NodeFs.unlink fault p st)) = trace st ++ [Io (Unlink p) ok].
Proof.
  unfold NodeFs.unlink. destruct (if fault then None else disk st !! p);
    [exists true | exists false]; reflexivity.
Qed.

(** A deletion that the file system does not refuse leaves no file. *)
Lemma unlink_gone p st : disk (snd (NodeFs.unlink false p st)) !! p = None.
Proof.
  unfold NodeFs.unlink. destruct (disk st !! p) eqn:E; simpl; [|exact E].
  apply lookup_delete_eq.
Qed.

(** Deleting an absent file rejects and changes nothing but the log. *)
Lemma unlink_absent fault p st :
  disk st !! p = None ->
  NodeFs.unlink fault p st = (false, record_io (Io (Unlink p) false) st).
Proof. unfold NodeFs.unlink. intros ->. now destruct fault. Qed.

Lemma unlink_disk fault p st :
  disk (snd (NodeFs.unlink fault p st)) = disk st \/
  disk (snd (NodeFs.unlink fault p st)) = delete p (disk st).
Proof.
  unfold NodeFs.unlink. destruct (if fault then None else disk st !! p); simpl; auto.
Qed.

(** [updateFileStatus] on a key of the collection, unfolded once. *)
Lemma updateFileStatus_found f key s st r :
  findByKey key (files st) = Some r ->
  updateFileStatus cfg f key s st =
  (true,
   let st2 := saveState cfg f (with_files (assignStatus key s (files st)) st) in
   if isTerminal s then snd (NodeFs.unlink (unlink_fault f) (blobPath cfg r) st2)
   else st2).
Proof.
  intros H. unfold updateFileStatus. rewrite H. f_equal.
  destruct (isTerminal s); [|reflexivity].
  unfold getFilePath. rewrite saveState_files. simpl.
  now rewrite (findByKey_assignStatus _ s _ _ H).
Qed.

Lemma updateFileStatus_files f key s st r :
  findByKey key (files st) = Some r ->
  files (snd (updateFileStatus cfg f key s st)) = assignStatus key s (files st).
Proof.
  intros H. rewrite (updateFileStatus_found _ _ _ _ _ H). simpl.
  destruct (isTerminal s).
  - now rewrite unlink_files, saveState_files.
  - now rewrite saveState_files.
Qed.

(** A key that no record carries: not found, nothing touched. *)
Lemma updateFileStatus_unknown f key s st :
  findByKey key (files st) = None -> updateFileStatus cfg f key s st = (false, st).
Proof. intros H. unfold updateFileStatus. now rewrite H. Qed.

Lemma assignStatus_keys key s l :
  List.map fileKey (assignStatus key s l) = List.map fileKey l.
Proof.
  induction l as [|x l IH]; simpl; [reflexivity|].
  destruct (String.eqb (fileKey x) key); simpl; [reflexivity|now rewrite IH].
Qed.

(** Unique keys are kept by a status update, and by [addFile] when the
    generated key is not in use. *)
Lemma updateFileStatus_unique_keys f key s st :
  unique_keys (files st) -> unique_keys (files (snd (updateFileStatus cfg f key s st))).
Proof.
  intros H. destruct (findByKey key (files st)) as [r|] eqn:E.
  - rewrite (updateFileStatus_files _ _ _ _ _ E). unfold unique_keys.
    now rewrite assignStatus_keys.
  - now rewrite (updateFileStatus_unknown _ _ _ _ E).
Qed.

Lemma addFile_unique_keys f uuid now src name st :
  unique_keys (files st) -> findByKey uuid (files st) = None ->
  unique_keys (files (snd (addFile cfg f uuid now src name st))).
Proof.
  intros H Hfresh. unfold addFile, NodeFs.rename.
  destruct (if rename_fault f then None else disk st !! src); simpl; [|exact H].
  rewrite saveState_files. simpl. unfold unique_keys. rewrite List.map_app. simpl.
  apply NoDup_app. split; [exact H|]. split; [|apply NoDup_singleton].
  intros k Hk Hk'. apply list_elem_of_In in Hk' as [<-|[]].
  apply list_elem_of_In, in_map_iff in Hk as (r & Hr & Hin).
  now apply (findByKey_None _ _ _ Hfresh Hin).
Qed.

End StoreLemmas.

(** ** Status updates (FileService.updateFileStatus, FileService.getPendingFiles) *)

Section StatusUpdate.
Context (cfg : Config).
Import FileService.

(** Reloading a snapshot that is the collection itself, or finding none,
    leaves the collection. *)
Lemma loadState_consistent f st :
  disk st !! FILE_DATA_FILE cfg = None \/
  disk st !! FILE_DATA_FILE cfg = Some (Snapshot (files st)) ->
  files (loadState cfg f st) = files st.
Proof.
  unfold loadState, NodeFs.readFile.
  intros [H|H]; rewrite H; destruct (read_fault f); reflexivity.
Qed.

(** What the data file holds after a status update whose rewrite succeeded. *)
Lemma updateFileStatus_snapshot f key s st r :
  findByKey key (files st) = Some r -> write_fault f = false ->
  let st' := snd (updateFileStatus cfg f key s st) in
  disk st' !! FILE_DATA_FILE cfg = None \/
  disk st' !! FILE_DATA_FILE cfg = Some (Snapshot (files st')).
Proof.
  intros H Hw st'. subst st'. rewrite (updateFileStatus_files cfg _ _ _ _ _ H).
  rewrite (updateFileStatus_found cfg _ _ _ _ _ H). simpl.
  assert (Hs : disk (saveState cfg f (with_files (assignStatus key s (files st)) st))
               !! FILE_DATA_FILE cfg = Some (Snapshot (assignStatus key s (files st)))).
  { rewrite saveState_disk, Hw. simpl. apply lookup_insert_eq. }
  destruct (isTerminal s); [|now right].
  destruct (unlink_disk (unlink_fault f) (blobPath cfg r)
              (saveState cfg f (with_files (assignStatus key s (files st)) st))) as [->| ->].
  - now right.
  - destruct (decide (blobPath cfg r = FILE_DATA_FILE cfg)) as [->|Hne].
    + left. apply lookup_delete_eq.
    + right. rewrite lookup_delete_ne; auto.
Qed.

(** C2, amended.  In a store with unique keys, [updateFileStatus(r.fileKey,
    Completed)] on a Pending record [r] returns true and [r] then carries
    Completed.  The blob of [r] is gone when the file system does not refuse
    the deletion, and [getPendingFiles], which reloads the snapshot from
    disk, lists no record with [r]'s key when the durable rewrite succeeded. *)
Theorem completed_update_effects f f' st r :
  unique_keys (files st) -> In r (files st) -> status r = Pending ->
  let res := updateFileStatus cfg f (fileKey r) Completed st in
  fst res = true /\
  findByKey (fileKey r) (files (snd res)) = Some (setStatus Completed r) /\
  (unlink_fault f = false -> disk (snd res) !! blobPath cfg r = None) /\
  (write_fault f = false ->
   forall x, In x (fst (getPendingFiles cfg f' (snd res))) -> fileKey x <> fileKey r).
Proof.
  intros Hu Hin _ res.
  pose proof (findByKey_unique _ _ Hu Hin) as Hf.
  assert (Hfiles : files (snd res) = assignStatus (fileKey r) Completed (files st))
    by apply (updateFileStatus_files cfg _ _ _ _ _ Hf).
  split; [|split; [|split]].
  - subst res. now rewrite (updateFileStatus_found cfg _ _ _ _ _ Hf).
  - rewrite Hfiles. now apply findByKey_assignStatus.
  - intros Hun. subst res. rewrite (updateFileStatus_found cfg _ _ _ _ _ Hf).
    simpl. rewrite Hun. apply unlink_gone.
  - intros Hw x Hx Hk. unfold getPendingFiles in Hx. simpl in Hx.
    rewrite loadState_consistent in Hx
      by (subst res; now apply (updateFileStatus_snapshot _ _ _ _ _ Hf)).
    apply filter_In in Hx as [Hx Hp]. rewrite Hfiles in Hx.
    apply (assignStatus_In _ _ _ _ Hu) in Hx; [|exact Hk].
    unfold isPending in Hp. apply bool_decide_eq_true in Hp. congruence.
Qed.

(** C3, amended.  A status update that names an existing record by a
    non-empty key applies whatever status of the enumeration it carries,
    Pending and Expired included: it is acknowledged, and the record then
    carries that status with its key, name and timestamp.  Completed and
    Failed make the operation delete the blob after the rewrite; Pending and
    Expired issue the rewrite only and leave every file but the data file.
    A request whose key is missing or empty, or whose status is missing, is
    rejected as an invalid body with nothing changed. *)
Theorem status_update_applies_any_status f st :
  (forall key s r,
     truthy key = true -> findByKey key (files st) = Some r ->
     let res := FileController.updateStatus cfg f
                  (FileController.mkStatusBody (Some key) (Some s)) st in
     fst res = Resolved (key, s) /\
     findByKey key (files (snd res))
       = Some (mkFileRecord (fileKey r) (fileName r) s (timestamp r)) /\
     (s = Pending \/ s = Expired ->
      trace (snd res) =
        trace st ++ [Io (WriteFile (FILE_DATA_FILE cfg)) (negb (write_fault f))] /\
      forall q, q <> FILE_DATA_FILE cfg -> disk (snd res) !! q = disk st !! q) /\
     (s = Completed \/ s = Failed ->
      (exists ok, trace (snd res) =
         trace st ++ [Io (WriteFile (FILE_DATA_FILE cfg)) (negb (write_fault f));
                      Io (Unlink (blobPath cfg r)) ok]) /\
      (unlink_fault f = false -> disk (snd res) !! blobPath cfg r = None))) /\
  (forall body,
     truthy_opt (FileController.body_fileKey body) = None \/
     FileController.body_status body = None ->
     FileController.updateStatus cfg f body st
       = (Rejected (FileController.InternalServerErrorException
                      FileController.InvalidRequestBody), st)).
Proof.
  split.
  - intros key s r Ht Hf res. subst res. unfold FileController.updateStatus. simpl.
    rewrite Ht. pose proof (updateFileStatus_files cfg f _ s _ _ Hf) as Hfiles.
    rewrite (updateFileStatus_found cfg _ _ _ _ _ Hf) in *. simpl in *.
    split; [reflexivity|]. split; [|split].
    + rewrite Hfiles, (findByKey_assignStatus _ s _ _ Hf). reflexivity.
    + intros Hs.
      assert (Hnt : isTerminal s = false) by (destruct Hs as [-> | ->]; reflexivity).
      rewrite Hnt. split; [now rewrite saveState_trace|].
      intros q Hq. rewrite saveState_disk. simpl.
      destruct (write_fault f); [reflexivity|]. now rewrite lookup_insert_ne by auto.
    + intros Hs.
      assert (Hterm : isTerminal s = true) by (destruct Hs as [-> | ->]; reflexivity).
      rewrite Hterm. split.
      * destruct (unlink_trace (unlink_fault f) (blobPath cfg r)
                    (saveState cfg f (with_files (assignStatus key s (files st)) st)))
          as [ok Hok].
        exists ok. rewrite Hok, saveState_trace. simpl. now rewrite <- app_assoc.
      * intros ->. apply unlink_gone.
  - intros body H. unfold FileController.updateStatus.
    destruct H as [H|H]; rewrite H; [reflexivity|].
    now destruct (truthy_opt (FileController.body_fileKey body)).
Qed.

(** C10.  When the durable rewrite fails during [updateFileStatus] on an
    existing key, the call still returns true and the record in memory
    carries the new status, with its key, name and timestamp.  For Completed
    and Failed the blob is still deleted, after the failed write; for Pending
    and Expired the failed write is the only call and the disk is as it was.
    In no case has anything been written: every file is as before or is the
    deleted blob. *)
Theorem failed_rewrite_is_swallowed f key s st r :
  findByKey key (files st) = Some r -> write_fault f = true ->
  let res := updateFileStatus cfg f key s st in
  fst res = true /\
  findByKey key (files (snd res))
    = Some (mkFileRecord (fileKey r) (fileName r) s (timestamp r)) /\
  (s = Completed \/ s = Failed ->
   (exists ok, trace (snd res) =
      trace st ++ [Io (WriteFile (FILE_DATA_FILE cfg)) false;
                   Io (Unlink (blobPath cfg r)) ok]) /\
   (unlink_fault f = false -> disk (snd res) !! blobPath cfg r = None)) /\
  (s = Pending \/ s = Expired ->
   trace (snd res) = trace st ++ [Io (WriteFile (FILE_DATA_FILE cfg)) false] /\
   disk (snd res) = disk st) /\
  (forall q, disk (snd res) !! q = disk st !! q \/
             (q = blobPath cfg r /\ (s = Completed \/ s = Failed) /\
              disk (snd res) !! q = None)).
Proof.
  intros Hf Hw res.
  pose proof (updateFileStatus_files cfg f _ s _ _ Hf) as Hfiles.
  subst res. rewrite (updateFileStatus_found cfg _ _ _ _ _ Hf) in *. simpl in *.
  set (st2 := saveState cfg f (with_files (assignStatus key s (files st)) st)) in *.
  assert (Hd : disk st2 = disk st) by (subst st2; now rewrite saveState_disk, Hw).
  assert (Htr : trace st2 = trace st ++ [Io (WriteFile (FILE_DATA_FILE cfg)) false])
    by (subst st2; now rewrite saveState_trace, Hw).
  split; [reflexivity|]. split; [|split; [|split]].
  - rewrite Hfiles, (findByKey_assignStatus _ s _ _ Hf). reflexivity.
  - intros Hs.
    assert (Hterm : isTerminal s = true) by (destruct Hs as [-> | ->]; reflexivity).
    rewrite Hterm. split.
    + destruct (unlink_trace (unlink_fault f) (blobPath cfg r) st2) as [ok Hok].
      exists ok. rewrite Hok, Htr. now rewrite <- app_assoc.
    + intros ->. apply unlink_gone.
  - intros Hs.
    assert (Hnt : isTerminal s = false) by (destruct Hs as [-> | ->]; reflexivity).
    rewrite Hnt. auto.
  - intros q. destruct (isTerminal s) eqn:Hterm; [|left; now rewrite Hd].
    assert (Hs : s = Completed \/ s = Failed) by (destruct s; auto; discriminate).
    destruct (unlink_disk (unlink_fault f) (blobPath cfg r) st2) as [->| ->].
    + left. now rewrite Hd.
    + rewrite Hd. destruct (decide (q = blobPath cfg r)) as [->|Hne].
      * right. split; [reflexivity|]. split; [exact Hs|]. apply lookup_delete_eq.
      * left. rewrite lookup_delete_ne; auto.
Qed.

End StatusUpdate.

(** ** Repeated terminal updates *)

Section Idempotence.
Context (cfg : Config).
Import FileService.

Lemma assignStatus_twice key s l :
  assignStatus key s (assignStatus key s l) = assignStatus key s l.
Proof.
  induction l as [|x l IH]; simpl; [reflexivity|].
  destruct (String.eqb (fileKey x) key) eqn:E; simpl; rewrite E.
  - reflexivity.
  - now rewrite IH.
Qed.

(** C8.  For an existing key and a terminal status, two [updateFileStatus]
    calls in a row both return true, whatever the file system does, and the
    second leaves the collection as the first made it.  When the first call
    removed the blob, the second call's deletion is rejected by the file
    system, is caught, and changes no file but the snapshot the call rewrites
    (stated for a blob path other than the data file's). *)
Theorem terminal_update_twice f1 f2 key s st r :
  findByKey key (files st) = Some r -> isTerminal s = true ->
  let r1 := updateFileStatus cfg f1 key s st in
  let r2 := updateFileStatus cfg f2 key s (snd r1) in
  fst r1 = true /\ fst r2 = true /\
  files (snd r2) = files (snd r1) /\
  (disk (snd r1) !! blobPath cfg r = None ->
   blobPath cfg r <> FILE_DATA_FILE cfg ->
   trace (snd r2) =
   trace (snd r1) ++ [Io (WriteFile (FILE_DATA_FILE cfg)) (negb (write_fault f2));
                      Io (Unlink (blobPath cfg r)) false] /\
   forall q, q <> FILE_DATA_FILE cfg -> disk (snd r2) !! q = disk (snd r1) !! q).
Proof.
  intros Hf Ht r1 r2.
  pose proof (updateFileStatus_files cfg f1 _ s _ _ Hf) as Hfiles1.
  assert (Hf1 : findByKey key (files (snd r1)) = Some (setStatus s r)).
  { subst r1. rewrite Hfiles1. now apply findByKey_assignStatus. }
  pose proof (updateFileStatus_files cfg f2 _ s _ _ Hf1) as Hfiles2.
  fold r1 in Hfiles1. fold r2 in Hfiles2.
  split; [subst r1; now rewrite (updateFileStatus_found cfg _ _ _ _ _ Hf)|].
  split; [subst r2; now rewrite (updateFileStatus_found cfg _ _ _ _ _ Hf1)|].
  split; [rewrite Hfiles2, Hfiles1; apply assignStatus_twice|].
  intros Habs Hne. subst r2.
  rewrite (updateFileStatus_found cfg _ _ _ _ _ Hf1). simpl. rewrite Ht.
  change (blobPath cfg (setStatus s r)) with (blobPath cfg r).
  set (st2 := saveState cfg f2 (with_files (assignStatus key s (files (snd r1))) (snd r1))).
  assert (Hd : forall q, q <> FILE_DATA_FILE cfg -> disk st2 !! q = disk (snd r1) !! q).
  { intros q Hq. subst st2. rewrite saveState_disk. simpl.
    destruct (write_fault f2); [reflexivity|]. rewrite lookup_insert_ne; auto. }
  assert (Hgone : disk st2 !! blobPath cfg r = None) by (rewrite Hd; auto).
  rewrite (unlink_absent _ _ _ Hgone). simpl. split.
  - subst st2. rewrite saveState_trace. simpl. now rewrite <- app_assoc.
  - exact Hd.
Qed.

End Idempotence.

(** ** Downloads (FileController.downloadFile) *)

Section Download.
Context (cfg : Config).
Import FileService.

(** C4, amended.  [downloadFile] answers not-found exactly for a key that no
    record carries.  When the record exists and its blob is gone, opening the
    stream fails and the controller answers with the internal server error
    it raises for any read failure. *)
Theorem download_of_cleaned_blob f key st :
  (fst (FileController.downloadFile cfg f key st)
     = Rejected (FileController.NotFoundException key)
   <-> findByKey key (files st) = None) /\
  (forall r, findByKey key (files st) = Some r ->
     disk st !! blobPath cfg r = None ->
     fst (FileController.downloadFile cfg f key st)
       = Rejected (FileController.InternalServerErrorException
                     FileController.ReadFromDiskFailed)).
Proof.
  unfold FileController.downloadFile, getFilePath, NodeFs.createReadStream.
  split.
  - destruct (findByKey key (files st)) as [r|]; simpl; [|tauto].
    split; [|discriminate].
    destruct (if stream_fault f then None
              else disk st !! path_join cfg (FILE_MEDIA_DIR cfg) (fileName r));
      discriminate.
  - intros r -> Habs. unfold blobPath in Habs. rewrite Habs.
    now destruct (stream_fault f).
Qed.

End Download.

(** ** Taking a file over (FileService.addFile) *)

Section AddFile.
Context (cfg : Config).
Import FileService.

(** No path through [addFile] rejects. *)
Lemma addFile_always_resolves f uuid now src name st :
  fst (addFile cfg f uuid now src name st) = Resolved tt.
Proof.
  unfold addFile.
  now destruct (NodeFs.rename _ _ _ _) as [[|] ?].
Qed.

(** [addFile] when the move succeeds. *)
Lemma addFile_moved f uuid now src name st c :
  rename_fault f = false -> disk st !! src = Some c ->
  let fileName := if truthy name then name else uuid in
  let dst := path_join cfg (FILE_MEDIA_DIR cfg) fileName in
  snd (addFile cfg f uuid now src name st) =
  saveState cfg f
    (with_files (files st ++ [mkFileRecord uuid fileName Pending now])
       (record_io (Io (Rename src dst) true)
          (with_disk (<[dst := c]> (delete src (disk st))) st))).
Proof.
  intros Hr Hs. simpl. unfold addFile, NodeFs.rename. rewrite Hr, Hs. reflexivity.
Qed.

(** C5.  When the move fails (refused by the file system, or no file at the
    source path), [addFile] creates no record, rewrites nothing and touches
    no file.  Its promise nevertheless resolves, as that of every call does:
    the failure is not observable by the caller. *)
Theorem addFile_move_failure f uuid now src name st :
  rename_fault f = true \/ disk st !! src = None ->
  let dst := path_join cfg (FILE_MEDIA_DIR cfg) (if truthy name then name else uuid) in
  let res := addFile cfg f uuid now src name st in
  files (snd res) = files st /\
  disk (snd res) = disk st /\
  trace (snd res) = trace st ++ [Io (Rename src dst) false] /\
  fst res = Resolved tt /\
  (forall f' uuid' now' src' name' st',
     fst (addFile cfg f' uuid' now' src' name' st') = fst res).
Proof.
  intros H dst res.
  assert (E : res = (Resolved tt, record_io (Io (Rename src dst) false) st)).
  { subst res dst. unfold addFile, NodeFs.rename.
    destruct H as [-> | ->]; [reflexivity|]. now destruct (rename_fault f). }
  rewrite E. simpl. repeat split. intros. apply addFile_always_resolves.
Qed.

(** C6, amended.  [addFile] issues the rename before the durable write, and
    issues no write when the rename fails.  [updateFileStatus] with a terminal
    status issues the durable write first and the deletion of the blob
    after it. *)
Theorem io_order_within_operation f :
  (forall uuid now src name st,
     let dst := path_join cfg (FILE_MEDIA_DIR cfg) (if truthy name then name else uuid) in
     let st' := snd (addFile cfg f uuid now src name st) in
     trace st' = trace st ++ [Io (Rename src dst) false] \/
     trace st' = trace st ++ [Io (Rename src dst) true;
                              Io (WriteFile (FILE_DATA_FILE cfg)) (negb (write_fault f))]) /\
  (forall key s st r,
     findByKey key (files st) = Some r -> isTerminal s = true ->
     exists ok,
       trace (snd (updateFileStatus cfg f key s st)) =
       trace st ++ [Io (WriteFile (FILE_DATA_FILE cfg)) (negb (write_fault f));
                    Io (Unlink (blobPath cfg r)) ok]).
Proof.
  split.
  - intros uuid now src name st dst st'. subst st' dst.
    unfold addFile, NodeFs.rename.
    destruct (if rename_fault f then None else disk st !! src); simpl.
    + right. rewrite saveState_trace. simpl. now rewrite <- app_assoc.
    + now left.
  - intros key s st r Hf Ht.
    rewrite (updateFileStatus_found cfg _ _ _ _ _ Hf). simpl. rewrite Ht.
    destruct (unlink_trace (unlink_fault f) (blobPath cfg r)
                (saveState cfg f (with_files (assignStatus key s (files st)) st)))
      as [ok Hok].
    exists ok. rewrite Hok, saveState_trace. simpl. now rewrite <- app_assoc.
Qed.

End AddFile.

(** ** Blob paths (FileService.getFilePath) *)

Section BlobPaths.
Context (cfg : Config).
Import FileService.

Lemma addFile_moved_files f uuid now src name st c :
  rename_fault f = false -> disk st !! src = Some c ->
  files (snd (addFile cfg f uuid now src name st)) =
  files st ++ [mkFileRecord uuid (if truthy name then name else uuid) Pending now].
Proof.
  intros Hr Hs. rewrite (addFile_moved cfg _ _ _ _ _ _ _ Hr Hs).
  now rewrite saveState_files.
Qed.



End BlobPaths.

(** ** The message handler (FeishuService) *)

Section Handler.
Context (cfg : Config).
Import FeishuService.

Lemma handler_frame_refl st : handler_frame cfg st st.
Proof.
  repeat split; auto. exists []. split; [now rewrite app_nil_r|constructor].
Qed.

Lemma handler_frame_trans st1 st2 st3 :
  handler_frame cfg st1 st2 -> handler_frame cfg st2 st3 -> handler_frame cfg st1 st3.
Proof.
  intros (F1 & P1 & T1 & O1 & l1 & E1 & W1) (F2 & P2 & T2 & O2 & l2 & E2 & W2).
  repeat split; try congruence; [lia|].
  exists (l1 ++ l2). split.
  - rewrite E2, E1. now rewrite <- app_assoc.
  - apply Forall_app. auto.
Qed.

Lemma messageCreate_frame p chat r st :
  handler_frame cfg st (snd (messageCreate p chat r st)).
Proof.
  unfold messageCreate, record_sent. repeat split; simpl; auto.
  - rewrite length_app. simpl. lia.
  - exists []. split; [now rewrite app_nil_r|constructor].
Qed.


Lemma replyToUser_frame p chat r st : handler_frame cfg st (replyToUser p chat r st).
Proof. apply messageCreate_frame. Qed.

Lemma staging_writeFile_frame fault name c st :
  handler_frame cfg st (snd (NodeFs.writeFile fault (path_join cfg (TEMP_DIR cfg) name) c st)).
Proof.
  unfold NodeFs.writeFile.
  destruct fault; simpl; (repeat split; auto; eexists; split; [reflexivity|]);
    repeat constructor; eexists _, _; reflexivity.
Qed.

Lemma processFileMessage_frame p chat message key name rt st :
  handler_frame cfg st (processFileMessage cfg p chat message key name rt st).
Proof.
  unfold processFileMessage.
  eapply handler_frame_trans; [apply (replyToUser_frame p chat (ReplyReceived name))|].
  destruct (fetch p message key rt) as [data|msg httpStatus].
  - destruct (temp_write_error p);
      (eapply handler_frame_trans; [apply staging_writeFile_frame|apply replyToUser_frame]).
  - destruct (bool_decide _); apply replyToUser_frame.
Qed.

Lemma dispatch_frame p ev st : handler_frame cfg st (snd (dispatch cfg p ev st)).
Proof.
  unfold dispatch. destruct (content ev) as [e|pc]; [apply handler_frame_refl|].
  repeat match goal with
  | |- context [if ?b then _ else _] => destruct b
  | |- context [match truthy_opt ?o with _ => _ end] => destruct (truthy_opt o)
  end; cbn [snd];
    try apply processFileMessage_frame; try apply handler_frame_refl.
  pose proof (messageCreate_frame p (chat_id ev) (ReplyGreeting (text pc)) st) as H.
  destruct (messageCreate p (chat_id ev) (ReplyGreeting (text pc)) st) as [[|] st'];
    exact H.
Qed.

Lemma pipeline_frame p ev st : handler_frame cfg st (snd (pipeline cfg p ev st)).
Proof.
  unfold pipeline. pose proof (dispatch_frame p ev st) as H.
  destruct (dispatch cfg p ev st) as [[msg|] st']; cbn [fst snd] in *; [|exact H].
  pose proof (messageCreate_frame p (chat_id ev) (ReplyUnexpected msg) st') as H'.
  destruct (messageCreate p (chat_id ev) (ReplyUnexpected msg) st') as [[|] st''];
    cbn [fst snd] in *; eapply handler_frame_trans; eauto.
Qed.


End Handler.

(** ** The dedup cache (FeishuService.isEventProcessed and its timers) *)

Section Dedup.
Import FeishuService.

Lemma NoDup_ids_filter (P : Z * string -> bool) (l : list (Z * string)) :
  NoDup (List.map snd l) -> NoDup (List.map snd (List.filter P l)).
Proof.
  induction l as [|x l IH]; simpl; [auto|].
  intros H. apply NoDup_cons in H as [Hx Hl].
  destruct (P x); simpl; [|auto].
  apply NoDup_cons. split; [|auto].
  intros Hin. apply Hx. apply list_elem_of_In in Hin. apply list_elem_of_In.
  apply in_map_iff in Hin as (y & Hy & Hin). apply filter_In in Hin as [Hin _].
  apply in_map_iff. eauto.
Qed.

Lemma NoDup_ids_same_due (l : list (Z * string)) d d' id :
  NoDup (List.map snd l) -> In (d, id) l -> In (d', id) l -> d = d'.
Proof.
  induction l as [|x l IH]; simpl; [easy|].
  intros H. apply NoDup_cons in H as [Hx Hl].
  assert (Hno : forall e, In (e, id) l -> snd x <> id).
  { intros e He Heq. apply Hx. apply list_elem_of_In. rewrite Heq.
    apply (in_map snd) in He. exact He. }
  intros [->|H1] [E|H2].
  - congruence.
  - exfalso. now apply (Hno d').
  - subst x. exfalso. now apply (Hno d).
  - auto.
Qed.

Lemma runTimers_wf now st : dedup_wf st -> dedup_wf (runTimers now st).
Proof.
  intros [Hnd Hin]. unfold dedup_wf, runTimers. simpl. split.
  - now apply NoDup_ids_filter.
  - intros due id H. apply filter_In in H as [H Hlate].
    apply elem_of_difference. split; [eauto|].
    rewrite elem_of_list_to_set. intros Hd. apply list_elem_of_In in Hd.
    apply in_map_iff in Hd as ([d' id'] & Heq & Hd). simpl in Heq. subst id'.
    apply filter_In in Hd as [Hd Hearly]. simpl in *.
    pose proof (NoDup_ids_same_due _ _ _ _ Hnd H Hd). lia.
Qed.

Lemma isEventProcessed_wf now id st :
  dedup_wf st -> dedup_wf (snd (isEventProcessed now id st)).
Proof.
  intros [Hnd Hin]. unfold dedup_wf, isEventProcessed.
  destruct (bool_decide (id ∈ processedEvents st)) eqn:E; simpl; [now split|].
  apply bool_decide_eq_false in E. split.
  - rewrite List.map_app. simpl. apply NoDup_app. split; [exact Hnd|]. split.
    + intros x Hx Hx'. apply list_elem_of_In in Hx' as [<-|[]].
      apply list_elem_of_In, in_map_iff in Hx as ([d i] & Heq & Hx).
      simpl in Heq. subst i. eauto.
    + apply NoDup_singleton.
  - intros due i H. apply in_app_iff in H as [H|[[= <- <-]|[]]].
    + apply elem_of_union_r. eauto.
    + apply elem_of_union_l. now apply elem_of_singleton.
Qed.


(** A remembered id makes the check answer true and change nothing. *)
Lemma isEventProcessed_known now id st :
  id ∈ processedEvents st -> isEventProcessed now id st = (true, st).
Proof. intros H. unfold isEventProcessed. now rewrite bool_decide_eq_true_2. Qed.




Lemma isEventProcessed_effects now id st :
  same_effects st (snd (isEventProcessed now id st)).
Proof.
  unfold isEventProcessed. destruct (bool_decide _); now repeat split.
Qed.

End Dedup.

(** ** Deliveries through the dedup gate (the [im.message.receive_v1] handler) *)

Section Deliveries.
Context (cfg : Config).
Import FeishuService.


Lemma dedup_wf_frame st st' :
  handler_frame cfg st st' -> dedup_wf st -> dedup_wf st'.
Proof. intros (_ & P & T & _) H. unfold dedup_wf in *. now rewrite P, T. Qed.

(** [onMessage], one case per way through the gate. *)
Lemma onMessage_cases p now ev st :
  onMessage cfg p now ev st =
  match truthy_opt (event_id ev) with
  | Some id =>
      if bool_decide (id ∈ processedEvents (runTimers now st))
      then (IgnoredDuplicate, runTimers now st)
      else pipeline cfg p ev (snd (isEventProcessed now id (runTimers now st)))
  | None => pipeline cfg p ev (runTimers now st)
  end.
Proof.
  unfold onMessage. destruct (truthy_opt (event_id ev)) as [id|]; [|reflexivity].
  unfold isEventProcessed. now destruct (bool_decide _).
Qed.

Lemma onMessage_wf p now ev st :
  dedup_wf st -> dedup_wf (snd (onMessage cfg p now ev st)).
Proof.
  intros H. apply (runTimers_wf now) in H. rewrite onMessage_cases.
  destruct (truthy_opt (event_id ev)) as [id|].
  - destruct (bool_decide _); [exact H|].
    eapply dedup_wf_frame; [apply pipeline_frame|]. now apply isEventProcessed_wf.
  - eapply dedup_wf_frame; [apply pipeline_frame|exact H].
Qed.

(** The invariant holds in every state the handler can reach. *)
Lemma dedup_wf_reachable ds : dedup_wf (snd (deliverAll cfg ds initial_state)).
Proof.
  assert (G : forall st, dedup_wf st -> dedup_wf (snd (deliverAll cfg ds st))).
  { induction ds as [|[[p now] ev] ds IH]; simpl; intros st H; [exact H|].
    pose proof (onMessage_wf p now ev st H) as H1.
    destruct (onMessage cfg p now ev st) as [o st1].
    specialize (IH st1 H1). now destruct (deliverAll cfg ds st1). }
  apply G. split; [constructor|]. intros due id [].
Qed.




(** C1.  No delivery reaches the record store: whatever the event and the
    platform do, [files] is what it was, and the handler issues nothing to
    the file system but writes into the staging directory, so the rename
    with which [addFile] begins never happens. *)
Theorem ingestion_never_reaches_the_store p now ev st :
  let st' := snd (onMessage cfg p now ev st) in
  files st' = files st /\
  List.filter FileService.isPending (files st') =
    List.filter FileService.isPending (files st) /\
  exists l, trace st' = trace st ++ l /\ Forall (staging_write cfg) l.
Proof.
  intros st'.
  assert (H : files st' = files st /\
              exists l, trace st' = trace st ++ l /\ Forall (staging_write cfg) l).
  { subst st'. rewrite onMessage_cases.
    assert (Hnil : exists l, trace (runTimers now st) = trace st ++ l /\
                             Forall (staging_write cfg) l).
    { exists []. split; [now rewrite app_nil_r|constructor]. }
    destruct (truthy_opt (event_id ev)) as [id|].
    - destruct (bool_decide _); simpl; [now split|].
      pose proof (pipeline_frame cfg p ev (snd (isEventProcessed now id (runTimers now st))))
        as (F & _ & _ & _ & l & T & W).
      pose proof (isEventProcessed_effects now id (runTimers now st)) as (F' & _ & T' & _).
      split; [now rewrite F, F'|]. exists l. split; [now rewrite T, T'|exact W].
    - pose proof (pipeline_frame cfg p ev (runTimers now st)) as (F & _ & _ & _ & l & T & W).
      split; [now rewrite F|]. exists l. split; [now rewrite T|exact W]. }
  destruct H as [F T]. split; [exact F|]. split; [now rewrite F|exact T].
Qed.

End Deliveries.

(** * The properties on the sample deployment *)

(** ** Status updates *)

(** C2 as stated fails: with the deletion refused, the update of the Pending
    photo to Completed returns true and the blob is still there. *)
Lemma completed_update_blob_survives :
  In photo (files sample_store) /\ status photo = Pending /\
  fst (FileService.updateFileStatus sample_cfg unlink_refused (fileKey photo)
         Completed sample_store) = true /\
  disk (snd (FileService.updateFileStatus sample_cfg unlink_refused (fileKey photo)
               Completed sample_store)) !! blobPath sample_cfg photo
    = Some (Bytes "JFIF").
Proof. vm_compute. repeat split; auto. Qed.

(** With the rewrite refused, the update returns true and the next
    [getPendingFiles] reloads the old snapshot: the photo is Pending again. *)
Example completed_update_undone_by_reload :
  fst (FileService.updateFileStatus sample_cfg write_refused "k1" Completed sample_store)
    = true /\
  fst (FileService.getPendingFiles sample_cfg no_faults
         (snd (FileService.updateFileStatus sample_cfg write_refused "k1" Completed
                 sample_store))) = [photo].
Proof. vm_compute. auto. Qed.

(** With two records under one key, the update reaches the first only. *)
Example completed_update_misses_twin :
  In photo_twin (files twin_store) /\
  files (snd (FileService.updateFileStatus sample_cfg no_faults (fileKey photo_twin)
                Completed twin_store))
    = [FileService.setStatus Completed photo; photo_twin].
Proof. vm_compute. auto. Qed.

(** The amended C2 on the sample store, with no fault injected. *)
Lemma completed_update_effects_witness :
  unique_keys (files sample_store) /\ In photo (files sample_store) /\
  status photo = Pending /\
  fst (FileService.updateFileStatus sample_cfg no_faults "k1" Completed sample_store)
    = true /\
  disk sample_store_completed !! blobPath sample_cfg photo = None /\
  (forall x, In x (fst (FileService.getPendingFiles sample_cfg no_faults
                          sample_store_completed)) -> fileKey x <> "k1").
Proof.
  assert (U : unique_keys (files sample_store)) by apply NoDup_singleton.
  assert (I : In photo (files sample_store)) by (left; reflexivity).
  assert (P : status photo = Pending) by reflexivity.
  pose proof (completed_update_effects sample_cfg no_faults no_faults sample_store photo
                U I P) as T.
  cbv zeta in T.
  split; [exact U|]. split; [exact I|]. split; [exact P|].
  split; [exact (proj1 T)|].
  split; [exact (proj1 (proj2 (proj2 T)) eq_refl)|].
  exact (proj2 (proj2 (proj2 T)) eq_refl).
Defined.

(** C3 as stated fails: a request with status Expired on the photo's key is
    acknowledged and the record is Expired afterwards. *)
Lemma expired_status_is_applied :
  fst (FileController.updateStatus sample_cfg no_faults
         (FileController.mkStatusBody (Some "k1") (Some Expired)) sample_store)
    = Resolved ("k1", Expired) /\
  files (snd (FileController.updateStatus sample_cfg no_faults
                (FileController.mkStatusBody (Some "k1") (Some Expired)) sample_store))
    = [mkFileRecord "k1" "photo.jpg" Expired 1700000000000].
Proof. vm_compute. auto. Qed.

(** The amended C3 on the sample store: a report of Expired for the Pending
    photo is acknowledged, the record is Expired afterwards, the rewrite is
    the only call and the blob stays; a report without a status is rejected
    and changes nothing. *)
Lemma status_update_applies_any_status_witness :
  truthy "k1" = true /\
  FileService.findByKey "k1" (files sample_store) = Some photo /\
  status photo = Pending /\
  fst (FileController.updateStatus sample_cfg no_faults
         (FileController.mkStatusBody (Some "k1") (Some Expired)) sample_store)
    = Resolved ("k1", Expired) /\
  FileService.findByKey "k1"
    (files (snd (FileController.updateStatus sample_cfg no_faults
                   (FileController.mkStatusBody (Some "k1") (Some Expired))
                   sample_store)))
    = Some (mkFileRecord "k1" "photo.jpg" Expired 1700000000000) /\
  trace (snd (FileController.updateStatus sample_cfg no_faults
                (FileController.mkStatusBody (Some "k1") (Some Expired)) sample_store))
    = trace sample_store ++ [Io (WriteFile (FILE_DATA_FILE sample_cfg)) true] /\
  FileController.updateStatus sample_cfg no_faults
    (FileController.mkStatusBody (Some "k1") None) sample_store
    = (Rejected (FileController.InternalServerErrorException
                   FileController.InvalidRequestBody), sample_store).
Proof.
  assert (K : truthy "k1" = true) by reflexivity.
  assert (F : FileService.findByKey "k1" (files sample_store) = Some photo) by reflexivity.
  assert (P : status photo = Pending) by reflexivity.
  pose proof (status_update_applies_any_status sample_cfg no_faults sample_store) as [A R].
  pose proof (A "k1" Expired photo K F) as T.
  cbv zeta in T.
  split; [exact K|]. split; [exact F|]. split; [exact P|].
  split; [exact (proj1 T)|].
  split; [exact (proj1 (proj2 T))|].
  split; [exact (proj1 (proj1 (proj2 (proj2 T)) (or_intror eq_refl)))|].
  exact (R (FileController.mkStatusBody (Some "k1") None) (or_intror eq_refl)).
Defined.

(** C10 on the sample store: Failed is reported for the Pending photo while
    the rewrite is refused. *)
Lemma failed_rewrite_is_swallowed_witness :
  FileService.findByKey "k1" (files sample_store) = Some photo /\
  write_fault write_refused = true /\
  status photo = Pending /\
  fst (FileService.updateFileStatus sample_cfg write_refused "k1" Failed sample_store)
    = true /\
  FileService.findByKey "k1"
    (files (snd (FileService.updateFileStatus sample_cfg write_refused "k1" Failed
                   sample_store)))
    = Some (mkFileRecord "k1" "photo.jpg" Failed 1700000000000) /\
  disk (snd (FileService.updateFileStatus sample_cfg write_refused "k1" Failed
               sample_store)) !! blobPath sample_cfg photo = None.
Proof.
  assert (F : FileService.findByKey "k1" (files sample_store) = Some photo) by reflexivity.
  assert (W : write_fault write_refused = true) by reflexivity.
  assert (P : status photo = Pending) by reflexivity.
  pose proof (failed_rewrite_is_swallowed sample_cfg write_refused "k1" Failed
                sample_store photo F W) as T.
  cbv zeta in T.
  split; [exact F|]. split; [exact W|]. split; [exact P|].
  split; [exact (proj1 T)|].
  split; [exact (proj1 (proj2 T))|].
  exact (proj2 (proj1 (proj2 (proj2 T)) (or_intror eq_refl)) eq_refl).
Defined.

(** The snapshot on disk still shows the photo as Pending after the refused
    rewrite, while the record in memory is Failed. *)
Example failed_rewrite_leaves_old_snapshot :
  disk (snd (FileService.updateFileStatus sample_cfg write_refused "k1" Failed
               sample_store)) !! FILE_DATA_FILE sample_cfg
    = Some (Snapshot [photo]) /\
  files (snd (FileService.updateFileStatus sample_cfg write_refused "k1" Failed
                sample_store))
    = [FileService.setStatus Failed photo].
Proof. vm_compute. auto. Qed.

(** C8 on the sample store: Completed is reported twice. *)
Lemma terminal_update_twice_witness :
  FileService.findByKey "k1" (files sample_store) = Some photo /\
  FileService.isTerminal Completed = true /\
  fst (FileService.updateFileStatus sample_cfg no_faults "k1" Completed sample_store)
    = true /\
  fst (FileService.updateFileStatus sample_cfg no_faults "k1" Completed
         sample_store_completed) = true /\
  trace (snd (FileService.updateFileStatus sample_cfg no_faults "k1" Completed
                sample_store_completed))
    = trace sample_store_completed ++
      [Io (WriteFile (FILE_DATA_FILE sample_cfg)) true;
       Io (Unlink (blobPath sample_cfg photo)) false].
Proof.
  assert (F : FileService.findByKey "k1" (files sample_store) = Some photo) by reflexivity.
  assert (S : FileService.isTerminal Completed = true) by reflexivity.
  pose proof (terminal_update_twice sample_cfg no_faults no_faults "k1" Completed
                sample_store photo F S) as T.
  cbv zeta in T.
  assert (A : disk sample_store_completed !! blobPath sample_cfg photo = None)
    by (vm_compute; reflexivity).
  assert (N : blobPath sample_cfg photo <> FILE_DATA_FILE sample_cfg)
    by (vm_compute; discriminate).
  split; [exact F|]. split; [exact S|].
  split; [exact (proj1 T)|].
  split; [exact (proj1 (proj2 T))|].
  exact (proj1 (proj2 (proj2 (proj2 T)) A N)).
Defined.

(** ** Downloads *)

(** C4 as stated fails: once Completed has removed the photo's blob, the
    download of its key is rejected with the internal server error, which is
    not the not-found answer. *)
Lemma download_after_completed_is_server_error :
  FileService.findByKey "k1" (files sample_store_completed)
    = Some (FileService.setStatus Completed photo) /\
  disk sample_store_completed !! blobPath sample_cfg photo = None /\
  fst (FileController.downloadFile sample_cfg no_faults "k1" sample_store_completed)
    = Rejected (FileController.InternalServerErrorException
                  FileController.ReadFromDiskFailed) /\
  fst (FileController.downloadFile sample_cfg no_faults "k1" sample_store_completed)
    <> Rejected (FileController.NotFoundException "k1").
Proof. vm_compute. repeat split; auto. discriminate. Qed.

(** The amended C4 on the sample store after Completed. *)
Lemma download_of_cleaned_blob_witness :
  FileService.findByKey "k1" (files sample_store_completed)
    = Some (FileService.setStatus Completed photo) /\
  disk sample_store_completed
    !! blobPath sample_cfg (FileService.setStatus Completed photo) = None /\
  fst (FileController.downloadFile sample_cfg unlink_refused "k1" sample_store_completed)
    = Rejected (FileController.InternalServerErrorException
                  FileController.ReadFromDiskFailed).
Proof.
  assert (F : FileService.findByKey "k1" (files sample_store_completed)
              = Some (FileService.setStatus Completed photo)) by (vm_compute; reflexivity).
  assert (A : disk sample_store_completed
                !! blobPath sample_cfg (FileService.setStatus Completed photo) = None)
    by (vm_compute; reflexivity).
  split; [exact F|]. split; [exact A|].
  exact (proj2 (download_of_cleaned_blob sample_cfg unlink_refused "k1"
                  sample_store_completed) _ F A).
Defined.

(** ** Taking a file over *)

(** The failing input of C5: no file at the source path.  The call resolves
    as every call does, with the store and the disk untouched. *)
Lemma addFile_move_failure_witness :
  (rename_fault no_faults = true \/
   disk sample_store !! "/srv/temp_uploads/missing.jpg" = None) /\
  FileService.addFile sample_cfg no_faults "k2" 1700000000500
    "/srv/temp_uploads/missing.jpg" "photo.jpg" sample_store
  = (Resolved tt,
     record_io (Io (Rename "/srv/temp_uploads/missing.jpg"
                      "/srv/_data/file_media/photo.jpg") false) sample_store) /\
  fst (FileService.addFile sample_cfg no_faults "k1" 1 "/srv/temp_uploads/a" "a.jpg"
         staged_pair)
  = fst (FileService.addFile sample_cfg no_faults "k2" 1700000000500
           "/srv/temp_uploads/missing.jpg" "photo.jpg" sample_store).
Proof.
  assert (M : rename_fault no_faults = true \/
              disk sample_store !! "/srv/temp_uploads/missing.jpg" = None)
    by (right; vm_compute; reflexivity).
  pose proof (addFile_move_failure sample_cfg no_faults "k2" 1700000000500
                "/srv/temp_uploads/missing.jpg" "photo.jpg" sample_store M) as T.
  cbv zeta in T.
  split; [exact M|]. split; [vm_compute; reflexivity|].
  exact (proj2 (proj2 (proj2 (proj2 T))) no_faults "k1" 1 "/srv/temp_uploads/a" "a.jpg"
           staged_pair).
Defined.

(** A successful [addFile] on the same store, for comparison: the record is
    appended, the blob sits in the media directory, the snapshot is rewritten. *)
Example addFile_success :
  snd (FileService.addFile sample_cfg no_faults "k1" 1 "/srv/temp_uploads/a" "a.jpg"
         staged_pair)
  = mkState [mkFileRecord "k1" "a.jpg" Pending 1] ∅ []
      (<["/srv/_data/file_data/feishu_files.json" :=
           Snapshot [mkFileRecord "k1" "a.jpg" Pending 1]]>
         (<["/srv/_data/file_media/a.jpg" := Bytes "first"]>
            (<["/srv/temp_uploads/b" := Bytes "second"]> ∅)))
      [Io (Rename "/srv/temp_uploads/a" "/srv/_data/file_media/a.jpg") true;
       Io (WriteFile "/srv/_data/file_data/feishu_files.json") true]
      [].
Proof. vm_compute. reflexivity. Qed.

(** C6 as stated fails for [updateFileStatus]: reporting Completed for the
    photo issues the durable write first and the deletion second. *)
Lemma status_update_writes_before_unlinking :
  trace (snd (FileService.updateFileStatus sample_cfg no_faults "k1" Completed
                sample_store))
    = [Io (WriteFile (FILE_DATA_FILE sample_cfg)) true;
       Io (Unlink (blobPath sample_cfg photo)) true] /\
  issued_before (Unlink (blobPath sample_cfg photo)) (WriteFile (FILE_DATA_FILE sample_cfg))
    (trace (snd (FileService.updateFileStatus sample_cfg no_faults "k1" Completed
                   sample_store))) = false /\
  issued_before (WriteFile (FILE_DATA_FILE sample_cfg)) (Unlink (blobPath sample_cfg photo))
    (trace (snd (FileService.updateFileStatus sample_cfg no_faults "k1" Completed
                   sample_store))) = true.
Proof. vm_compute. auto. Qed.

(** The amended C6 on the sample store: Failed is reported, the deletion is
    refused, and the order of the two calls is the same. *)
Lemma io_order_within_operation_witness :
  FileService.findByKey "k1" (files sample_store) = Some photo /\
  FileService.isTerminal Failed = true /\
  exists ok,
    trace (snd (FileService.updateFileStatus sample_cfg unlink_refused "k1" Failed
                  sample_store))
    = trace sample_store ++
      [Io (WriteFile (FILE_DATA_FILE sample_cfg)) (negb (write_fault unlink_refused));
       Io (Unlink (blobPath sample_cfg photo)) ok].
Proof.
  assert (F : FileService.findByKey "k1" (files sample_store) = Some photo) by reflexivity.
  assert (S : FileService.isTerminal Failed = true) by reflexivity.
  split; [exact F|]. split; [exact S|].
  exact (proj2 (io_order_within_operation sample_cfg unlink_refused) "k1" Failed
           sample_store photo F S).
Defined.

(** ** Blob paths *)



(** ** Deliveries *)


(** The same two deliveries under a proper event id, and a third one after
    the window: handled, suppressed, handled again. *)
Example redelivery_on_sample :
  fst (FeishuService.deliverAll sample_cfg
         [(sample_platform, 0, image_event (Some "ev1"));
          (sample_platform, 1, image_event (Some "ev1"));
          (sample_platform, 600001, image_event (Some "ev1"))] initial_state)
    = [FeishuService.Handled; FeishuService.IgnoredDuplicate; FeishuService.Handled] /\
  List.map reply
    (outbox (snd (FeishuService.deliverAll sample_cfg
                    [(sample_platform, 0, image_event (Some "ev1"));
                     (sample_platform, 1, image_event (Some "ev1"))] initial_state)))
    = [ReplyReceived "photo.jpg"; ReplyDownloaded "photo.jpg"].
Proof. vm_compute. auto. Qed.


(** The failing input of C1: an image event whose resource is fetched and
    staged.  The sender is told the file has been downloaded, the bytes stay
    in the staging directory, and the store has no record to list. *)
Example image_event_leaves_no_record :
  fst (FeishuService.onMessage sample_cfg sample_platform 0 (image_event (Some "ev1"))
         initial_state) = FeishuService.Handled /\
  List.map reply
    (outbox (snd (FeishuService.onMessage sample_cfg sample_platform 0
                    (image_event (Some "ev1")) initial_state)))
    = [ReplyReceived "photo.jpg"; ReplyDownloaded "photo.jpg"] /\
  disk (snd (FeishuService.onMessage sample_cfg sample_platform 0
               (image_event (Some "ev1")) initial_state))
    !! "/srv/temp_uploads/photo.jpg" = Some (Bytes "JFIF") /\
  disk (snd (FeishuService.onMessage sample_cfg sample_platform 0
               (image_event (Some "ev1")) initial_state))
    !! "/srv/_data/file_media/photo.jpg" = None /\
  fst (FileService.getPendingFiles sample_cfg no_faults
         (snd (FeishuService.onMessage sample_cfg sample_platform 0
                 (image_event (Some "ev1")) initial_state))) = [].
Proof. vm_compute. auto 10. Qed.

(** * Further properties of the code *)

(** ** The snapshot on disk (FileService.saveState, FileService.loadState) *)

Section Snapshot.
Context (cfg : Config).
Import FileService.

Lemma loadState_disk f st : disk (loadState cfg f st) = disk st.
Proof.
  unfold loadState, NodeFs.readFile.
  destruct (if read_fault f then None else disk st !! FILE_DATA_FILE cfg) as [[d|l]|];
    reflexivity.
Qed.

(** What [loadState] leaves in memory when the data file holds a snapshot
    and the read is not refused. *)
Lemma loadState_snapshot f st l :
  read_fault f = false -> disk st !! FILE_DATA_FILE cfg = Some (Snapshot l) ->
  files (loadState cfg f st) = l.
Proof. intros Hr Hd. unfold loadState, NodeFs.readFile. now rewrite Hr, Hd. Qed.

Lemma loadState_after_save f f' st :
  write_fault f = false ->
  files (loadState cfg f' (saveState cfg f st)) = files st.
Proof.
  intros Hw. rewrite loadState_consistent; [apply saveState_files|].
  right. rewrite saveState_files, saveState_disk, Hw. apply lookup_insert_eq.
Qed.

(** X1.  A collection saved without a write failure is what [loadState]
    finds: the same process gets its collection back whether or not the
    read succeeds, and a process starting from any other collection gets it
    when the read succeeds. *)
Theorem snapshot_round_trip f f' st :
  write_fault f = false ->
  files (loadState cfg f' (saveState cfg f st)) = files st /\
  (forall l', read_fault f' = false ->
     files (loadState cfg f' (with_files l' (saveState cfg f st))) = files st).
Proof.
  intros Hw.
  assert (Hd : disk (saveState cfg f st) !! FILE_DATA_FILE cfg = Some (Snapshot (files st))).
  { rewrite saveState_disk, Hw. apply lookup_insert_eq. }
  split; [now apply loadState_after_save|].
  intros l' Hr. now apply loadState_snapshot.
Qed.

(** X2.  An [addFile] whose move and rewrite both succeed appends one
    Pending record that [getPendingFiles] lists last, after the Pending
    records the collection had in memory; the bytes sit at the destination
    and no longer at the source. *)
Theorem addFile_success_is_listed f f' uuid now src name st c :
  rename_fault f = false -> disk st !! src = Some c -> write_fault f = false ->
  let localFileName := if truthy name then name else uuid in
  let dst := path_join cfg (FILE_MEDIA_DIR cfg) localFileName in
  let st' := snd (addFile cfg f uuid now src name st) in
  fst (getPendingFiles cfg f' st') =
    List.filter isPending (files st) ++ [mkFileRecord uuid localFileName Pending now] /\
  (dst <> FILE_DATA_FILE cfg -> disk st' !! dst = Some c) /\
  (src <> dst -> src <> FILE_DATA_FILE cfg -> disk st' !! src = None).
Proof.
  intros Hr Hs Hw localFileName dst st'.
  assert (E : st' = saveState cfg f
                (with_files (files st ++ [mkFileRecord uuid localFileName Pending now])
                   (record_io (Io (Rename src dst) true)
                      (with_disk (<[dst := c]> (delete src (disk st))) st))))
    by apply (addFile_moved cfg _ _ _ _ _ _ _ Hr Hs).
  split; [|split].
  - unfold getPendingFiles. simpl. rewrite E.
    rewrite (loadState_after_save f f' _ Hw). simpl.
    rewrite List.filter_app. reflexivity.
  - intros Hne. rewrite E, saveState_disk, Hw. simpl.
    rewrite lookup_insert_ne by auto. apply lookup_insert_eq.
  - intros Hsd Hsf. rewrite E, saveState_disk, Hw. simpl.
    rewrite lookup_insert_ne by auto. rewrite lookup_insert_ne by auto.
    apply lookup_delete_eq.
Qed.

(** X3.  When the move succeeds and the rewrite fails while the data file
    holds an older snapshot, the next [getPendingFiles] whose read succeeds
    puts that snapshot back in memory: the collection is the old one, so the
    new record is gone unless the old snapshot had it, and the moved bytes
    stay in the media directory. *)
Theorem failed_rewrite_then_reload_drops_record f f' uuid now src name st c old :
  rename_fault f = false -> disk st !! src = Some c -> write_fault f = true ->
  disk st !! FILE_DATA_FILE cfg = Some (Snapshot old) ->
  read_fault f' = false ->
  let dst := path_join cfg (FILE_MEDIA_DIR cfg) (if truthy name then name else uuid) in
  src <> FILE_DATA_FILE cfg -> dst <> FILE_DATA_FILE cfg ->
  let st1 := snd (addFile cfg f uuid now src name st) in
  let res := getPendingFiles cfg f' st1 in
  In (mkFileRecord uuid (if truthy name then name else uuid) Pending now) (files st1) /\
  files (snd res) = old /\
  fst res = List.filter isPending old /\
  disk (snd res) !! dst = Some c.
Proof.
  intros Hr Hs Hw Hold Hread dst Hsf Hdf st1 res.
  assert (E : st1 = saveState cfg f
                (with_files (files st ++ [mkFileRecord uuid
                                            (if truthy name then name else uuid) Pending now])
                   (record_io (Io (Rename src dst) true)
                      (with_disk (<[dst := c]> (delete src (disk st))) st))))
    by apply (addFile_moved cfg _ _ _ _ _ _ _ Hr Hs).
  assert (Hd1 : disk st1 = <[dst := c]> (delete src (disk st))).
  { rewrite E, saveState_disk, Hw. reflexivity. }
  assert (Hsnap : disk st1 !! FILE_DATA_FILE cfg = Some (Snapshot old)).
  { rewrite Hd1. rewrite lookup_insert_ne by auto. rewrite lookup_delete_ne by auto.
    exact Hold. }
  assert (Hfiles : files (loadState cfg f' st1) = old)
    by now apply loadState_snapshot.
  split; [|split; [|split]].
  - rewrite E, saveState_files. simpl. apply in_app_iff. right. now left.
  - exact Hfiles.
  - subst res. unfold getPendingFiles. simpl. now rewrite Hfiles.
  - subst res. unfold getPendingFiles. simpl. rewrite loadState_disk, Hd1.
    apply lookup_insert_eq.
Qed.

End Snapshot.

(** ** What a status update touches (FileService.updateFileStatus) *)

Section UpdateFootprint.
Context (cfg : Config).
Import FileService.

Lemma assignStatus_pointwise key s l :
  Forall2 (fun a b => b = a \/ (fileKey a = key /\ b = setStatus s a))
          l (assignStatus key s l).
Proof.
  induction l as [|x l IH]; simpl; [constructor|].
  destruct (String.eqb_spec (fileKey x) key) as [Heq|Hne].
  - constructor; [right; auto|]. clear IH. induction l; constructor; auto.
  - constructor; auto.
Qed.

(** Opening the stream of a blob that is not there ends in the internal
    server error. *)
Lemma downloadFile_absent_blob f key st r :
  findByKey key (files st) = Some r -> disk st !! blobPath cfg r = None ->
  fst (FileController.downloadFile cfg f key st)
    = Rejected (FileController.InternalServerErrorException
                  FileController.ReadFromDiskFailed).
Proof.
  intros Hf Habs.
  unfold FileController.downloadFile, getFilePath, NodeFs.createReadStream.
  rewrite Hf. unfold blobPath in Habs. rewrite Habs. now destruct (stream_fault f).
Qed.

(** X4.  [updateFileStatus] changes at most the status of records carrying
    the key: the collection keeps its length and order, every record keeps
    its key, name and timestamp, and a record with another key is left as it
    is.  This holds for any key and status, found or not. *)
Theorem updateFileStatus_touches_only_the_key f key s st :
  Forall2 (fun a b => b = a \/ (fileKey a = key /\ b = setStatus s a))
          (files st) (files (snd (updateFileStatus cfg f key s st))).
Proof.
  destruct (findByKey key (files st)) as [r|] eqn:E.
  - rewrite (updateFileStatus_files cfg _ _ _ _ _ E). apply assignStatus_pointwise.
  - rewrite (updateFileStatus_unknown cfg _ _ _ _ E). simpl.
    generalize (files st). intros l. induction l; constructor; auto.
Qed.

(** X5.  On disk, [updateFileStatus] touches the data file and, for a
    terminal status, the blob of the matched record, and nothing else: every
    other path holds what it held.  A status that is not terminal leaves
    every path but the data file's. *)
Theorem updateFileStatus_disk_footprint f key s st q :
  q <> FILE_DATA_FILE cfg ->
  (isTerminal s = true -> getFilePath cfg key st <> Some q) ->
  disk (snd (updateFileStatus cfg f key s st)) !! q = disk st !! q.
Proof.
  intros Hq Hblob.
  destruct (findByKey key (files st)) as [r|] eqn:E.
  - rewrite (updateFileStatus_found cfg _ _ _ _ _ E). simpl.
    set (st2 := saveState cfg f (with_files (assignStatus key s (files st)) st)).
    assert (Hd : disk st2 !! q = disk st !! q).
    { subst st2. rewrite saveState_disk. simpl.
      destruct (write_fault f); [reflexivity|]. now rewrite lookup_insert_ne by auto. }
    destruct (isTerminal s); [|exact Hd].
    assert (Hne : q <> blobPath cfg r).
    { intros ->. apply Hblob; [reflexivity|]. unfold getFilePath. now rewrite E. }
    destruct (unlink_disk (unlink_fault f) (blobPath cfg r) st2) as [->| ->]; [exact Hd|].
    now rewrite lookup_delete_ne by auto.
  - now rewrite (updateFileStatus_unknown cfg _ _ _ _ E).
Qed.


(** X7.  Two records with different keys and the same [fileName] share
    their blob, so a terminal update of one whose deletion succeeds removes
    the other's bytes: the other record is unchanged, Pending if it was, and
    its download is answered with the internal server error. *)
Theorem shared_name_update_strands_the_other f f' k1 k2 s st r1 r2 :
  findByKey k1 (files st) = Some r1 -> findByKey k2 (files st) = Some r2 ->
  k1 <> k2 -> fileName r1 = fileName r2 ->
  isTerminal s = true -> unlink_fault f = false ->
  let st' := snd (updateFileStatus cfg f k1 s st) in
  findByKey k2 (files st') = Some r2 /\
  getFilePath cfg k2 st' = Some (blobPath cfg r2) /\
  disk st' !! blobPath cfg r2 = None /\
  fst (FileController.downloadFile cfg f' k2 st')
    = Rejected (FileController.InternalServerErrorException
                  FileController.ReadFromDiskFailed).
Proof.
  intros H1 H2 Hk Hname Ht Hu st'.
  assert (Hfiles : files st' = assignStatus k1 s (files st))
    by apply (updateFileStatus_files cfg _ _ _ _ _ H1).
  assert (Hf2 : findByKey k2 (files st') = Some r2).
  { rewrite Hfiles. clear Hfiles st' H1. revert H2. unfold findByKey.
    induction (files st) as [|x l IH]; simpl; [easy|].
    destruct (String.eqb_spec (fileKey x) k1) as [E1|N1]; simpl.
    - destruct (String.eqb_spec (fileKey x) k2) as [E2|N2]; [congruence|auto].
    - destruct (String.eqb (fileKey x) k2); auto. }
  assert (Hgone : disk st' !! blobPath cfg r2 = None).
  { subst st'. rewrite (updateFileStatus_found cfg _ _ _ _ _ H1). simpl.
    rewrite Ht, Hu. unfold blobPath. rewrite <- Hname. apply unlink_gone. }
  split; [exact Hf2|]. split; [unfold getFilePath; now rewrite Hf2|].
  split; [exact Hgone|].
  now apply (downloadFile_absent_blob f' k2 st' r2).
Qed.

(** X8.  Across any sequence of [addFile] and [updateFileStatus] calls the
    collection only grows: every record stays where it is with its key, name
    and timestamp, whatever faults the calls meet.  No call removes or
    reorders a record. *)
Theorem store_calls_keep_records cs st :
  grows_from (files st) (files (runCalls cfg cs st)).
Proof.
  assert (Hrefl : forall l, Forall2 same_identity l l).
  { induction l; constructor; auto. now repeat split. }
  assert (Hstep : forall c st0, grows_from (files st0) (files (runCall cfg c st0))).
  { intros [f uuid now src name|f key s] st0; simpl.
    - unfold addFile, NodeFs.rename.
      destruct (if rename_fault f then None else disk st0 !! src); simpl.
      + rewrite saveState_files. simpl. eexists _, _. split; [reflexivity|apply Hrefl].
      + exists (files st0), []. split; [now rewrite app_nil_r|apply Hrefl].
    - exists (files (snd (updateFileStatus cfg f key s st0))), [].
      split; [now rewrite app_nil_r|].
      destruct (findByKey key (files st0)) as [r|] eqn:E.
      + rewrite (updateFileStatus_files cfg _ _ _ _ _ E).
        eapply Forall2_impl; [apply assignStatus_pointwise|].
        intros a b [->|[_ ->]]; now repeat split.
      + rewrite (updateFileStatus_unknown cfg _ _ _ _ E). apply Hrefl. }
  revert st. induction cs as [|c cs IH]; intros st; simpl.
  - exists (files st), []. split; [now rewrite app_nil_r|apply Hrefl].
  - destruct (Hstep c st) as (k1 & a1 & E1 & F1).
    destruct (IH (runCall cfg c st)) as (k2 & a2 & E2 & F2).
    unfold runCalls in E2. rewrite E1 in F2.
    apply Forall2_app_inv_l in F2 as (k2a & k2b & Fa & Fb & ->).
    exists k2a, (k2b ++ a2). split.
    + unfold runCalls. rewrite E2. now rewrite <- app_assoc.
    + clear -F1 Fa. revert k2a Fa. induction F1 as [|a b l l' Hab F1 IH]; intros k2a Fa.
      * inversion Fa. constructor.
      * inversion Fa as [|b' c' l2 l2' Hbc Fa']; subst. constructor; [|auto].
        destruct Hab as (A1 & A2 & A3), Hbc as (B1 & B2 & B3).
        repeat split; congruence.
Qed.

End UpdateFootprint.

(** ** Answers of the pull API (FileController) *)

Section PullApi.
Context (cfg : Config).
Import FileService.

(** X9.  A status update that is rejected has changed nothing, in memory or
    on disk, and has issued no file-system call.  It is rejected as an
    invalid body (an internal server error) exactly when the key is missing
    or empty or the status is missing, and as not-found exactly when both are
    there and no record carries the key. *)
Theorem rejected_status_update_changes_nothing f body st :
  let res := FileController.updateStatus cfg f body st in
  (forall e, fst res = Rejected e -> snd res = st) /\
  (fst res = Rejected (FileController.InternalServerErrorException
                         FileController.InvalidRequestBody)
   <-> truthy_opt (FileController.body_fileKey body) = None \/
       FileController.body_status body = None) /\
  (forall k, fst res = Rejected (FileController.NotFoundException k)
   <-> truthy_opt (FileController.body_fileKey body) = Some k /\
       FileController.body_status body <> None /\
       findByKey k (files st) = None).
Proof.
  intros res. subst res. unfold FileController.updateStatus.
  destruct (truthy_opt (FileController.body_fileKey body)) as [key|];
    [destruct (FileController.body_status body) as [s|]|].
  - destruct (findByKey key (files st)) as [r|] eqn:E.
    + rewrite (updateFileStatus_found cfg _ _ _ _ _ E). simpl.
      split; [discriminate|]. split.
      * split; [discriminate|]. intros [|]; discriminate.
      * intros k. split; [discriminate|]. intros ([= ->] & _ & H). congruence.
    + rewrite (updateFileStatus_unknown cfg _ _ _ _ E). simpl.
      split; [reflexivity|]. split.
      * split; [discriminate|]. intros [|]; discriminate.
      * intros k. split.
        -- intros [= ->]. repeat split; auto; discriminate.
        -- intros ([= ->] & _ & _). reflexivity.
  - simpl. split; [reflexivity|]. split; [split; auto|].
    intros k. split; [discriminate|]. intros (_ & H & _). now contradiction H.
  - simpl. split; [reflexivity|]. split; [split; auto|].
    intros k. split; [discriminate|]. intros (H & _). discriminate.
Qed.

(** X10.  A download resolves with content [c] exactly when a record carries
    the key, its blob path holds [c] and the stream does not fail; the
    record's status plays no part.  Whatever the answer, the download leaves
    the collection and the disk as they are. *)
Theorem download_returns_stored_bytes f key st c :
  let res := FileController.downloadFile cfg f key st in
  (fst res = Resolved c
   <-> stream_fault f = false /\
       exists r, findByKey key (files st) = Some r /\
                 disk st !! blobPath cfg r = Some c) /\
  files (snd res) = files st /\
  disk (snd res) = disk st.
Proof.
  intros res. subst res.
  unfold FileController.downloadFile, getFilePath, NodeFs.createReadStream, blobPath.
  destruct (findByKey key (files st)) as [r|]; simpl.
  - destruct (stream_fault f); simpl.
    + split; [|auto]. split; [discriminate|]. intros [? _]. discriminate.
    + destruct (disk st !! path_join cfg (FILE_MEDIA_DIR cfg) (fileName r))
        as [c'|] eqn:E; simpl.
      * split; [|auto]. split.
        -- intros [= ->]. split; [reflexivity|]. exists r. auto.
        -- intros (_ & r' & [= <-] & H). rewrite E in H. congruence.
      * split; [|auto]. split; [discriminate|].
        intros (_ & r' & [= <-] & H). rewrite E in H. discriminate.
  - split; [|auto]. split; [discriminate|]. intros (_ & r' & H & _). discriminate.
Qed.

End PullApi.

(** ** Replies of the handler (FeishuService.processFileMessage, the handler) *)

Section Replies.
Context (cfg : Config).
Import FeishuService.

(** X11.  [processFileMessage] hands exactly two messages to the platform,
    both for the chat of the event, whether or not they can be sent: the
    acknowledgement, then one outcome.  The outcome is the success message
    exactly when the resource was fetched and staged, and then the staging
    path holds the fetched bytes; it is the not-found-or-expired message
    exactly when the fetch failed with HTTP status 404; in every failure case
    the disk is as it was. *)
Theorem file_message_replies p chat message key name rt st :
  let st' := processFileMessage cfg p chat message key name rt st in
  let staged := path_join cfg (TEMP_DIR cfg) name in
  let fetched :=
    exists data, fetch p message key rt = FetchOk data /\ temp_write_error p = None in
  exists d1 d2 outcome,
    outbox st' = outbox st ++ [mkSent chat (ReplyReceived name) d1;
                               mkSent chat outcome d2] /\
    (outcome = ReplyDownloaded name <-> fetched) /\
    (outcome = ReplyNotFoundOrExpired name
     <-> exists msg, fetch p message key rt = FetchError msg (Some 404)) /\
    (forall data, fetch p message key rt = FetchOk data -> temp_write_error p = None ->
       disk st' = <[staged := Bytes data]> (disk st)) /\
    (~ fetched -> disk st' = disk st).
Proof.
  intros st' staged fetched. subst st' fetched.
  unfold processFileMessage, replyToUser, messageCreate.
  destruct (fetch p message key rt) as [data|msg hs].
  - destruct (temp_write_error p) as [err|]; simpl.
    + eexists _, _, _. split; [now rewrite <- app_assoc|].
      split; [split; [discriminate|intros (? & _ & ?); discriminate]|].
      split; [split; [discriminate|intros (? & ?); discriminate]|].
      split; [discriminate|reflexivity].
    + eexists _, _, _. split; [now rewrite <- app_assoc|].
      split; [split; eauto|].
      split; [split; [discriminate|intros (? & ?); discriminate]|].
      split; [intros d [= <-] _; reflexivity|].
      intros H. exfalso. apply H. eauto.
  - destruct (bool_decide (hs = Some 404)) eqn:E; simpl.
    + apply bool_decide_eq_true in E. subst hs.
      eexists _, _, _. split; [now rewrite <- app_assoc|].
      split; [split; [discriminate|intros (? & ? & _); discriminate]|].
      split; [split; eauto|].
      split; [discriminate|reflexivity].
    + apply bool_decide_eq_false in E.
      eexists _, _, _. split; [now rewrite <- app_assoc|].
      split; [split; [discriminate|intros (? & ? & _); discriminate]|].
      split; [split; [discriminate|intros (? & [= _ ->]); now contradiction E]|].
      split; [discriminate|reflexivity].
Qed.

Lemma dispatch_carries_file p ev st :
  carries_file ev = true -> fst (dispatch cfg p ev st) = None.
Proof.
  unfold carries_file, dispatch. destruct (content ev) as [e|pc]; [discriminate|].
  repeat match goal with
  | |- context [if String.eqb ?a ?b then _ else _] => destruct (String.eqb a b)
  end; try discriminate;
    intros H; apply bool_decide_eq_true in H as [k Hk]; now rewrite Hk.
Qed.

Lemma pipeline_unhandled p ev st :
  fst (pipeline cfg p ev st) = Unhandled ->
  (exists msg, fst (dispatch cfg p ev st) = Some msg) /\
  exists msg before,
    outbox (snd (pipeline cfg p ev st))
      = before ++ [mkSent (chat_id ev) (ReplyUnexpected msg) false].
Proof.
  unfold pipeline. destruct (dispatch cfg p ev st) as [[msg|] st']; [|discriminate].
  unfold messageCreate. destruct (negb (send_fails p (length (outbox st')))) eqn:E;
    [discriminate|].
  intros _. split; [eauto|]. exists msg, (outbox st'). reflexivity.
Qed.

(** X12.  The handler's promise is rejected only when the apology for an
    error could not be sent: the last message handed to the platform is then
    that undelivered apology.  For a message that carries a file it is never
    rejected, whatever the platform does. *)
Theorem handler_rejects_only_when_apology_fails p now ev st :
  let res := onMessage cfg p now ev st in
  (fst res = Unhandled ->
   exists msg before,
     outbox (snd res) = before ++ [mkSent (chat_id ev) (ReplyUnexpected msg) false]) /\
  (carries_file ev = true -> fst res <> Unhandled).
Proof.
  intros res. subst res. rewrite onMessage_cases.
  destruct (truthy_opt (event_id ev)) as [id|].
  - destruct (bool_decide _); simpl.
    + split; [discriminate|]. intros _. discriminate.
    + split.
      * intros H. now apply pipeline_unhandled in H as [_ H].
      * intros Hc H. apply pipeline_unhandled in H as [[msg Hm] _].
        rewrite dispatch_carries_file in Hm by exact Hc. discriminate.
  - split.
    + intros H. now apply pipeline_unhandled in H as [_ H].
    + intros Hc H. apply pipeline_unhandled in H as [[msg Hm] _].
      rewrite dispatch_carries_file in Hm by exact Hc. discriminate.
Qed.

End Replies.

(** ** What the dedup cache holds (isEventProcessed, its timers, the handler) *)

Section CacheContents.
Context (cfg : Config).
Import FeishuService.

Lemma sublist_of_filter (P : Z -> bool) (l1 l2 : list Z) :
  l1 `sublist_of` l2 -> List.filter P l1 `sublist_of` List.filter P l2.
Proof.
  induction 1 as [|x l1 l2 _ IH|x l1 l2 _ IH]; simpl.
  - constructor.
  - destruct (P x); [now constructor|exact IH].
  - destruct (P x); [now constructor|exact IH].
Qed.

Lemma filter_dues (P : Z -> bool) (l : list (Z * string)) :
  List.map fst (List.filter (fun t => P (fst t)) l) = List.filter P (List.map fst l).
Proof.
  induction l as [|x l IH]; simpl; [reflexivity|].
  destruct (P (fst x)); simpl; now rewrite IH.
Qed.

Lemma filter_all (A : Type) (P : A -> bool) (l : list A) :
  (forall x, In x l -> P x = true) -> List.filter P l = l.
Proof.
  induction l as [|x l IH]; simpl; intros H; [reflexivity|].
  rewrite (H x) by auto. f_equal. auto.
Qed.

Lemma runTimers_tracked ds now st : tracked ds st -> tracked ds (runTimers now st).
Proof.
  intros (Hnd & Hset & Hsub). unfold tracked, runTimers. simpl.
  split; [now apply NoDup_ids_filter|]. split.
  - rewrite Hset. apply set_eq. intros id.
    rewrite elem_of_difference, !elem_of_list_to_set, !list_elem_of_In, !in_map_iff.
    split.
    + intros [([d i] & Hi & Hin) Hnot]. simpl in Hi. subst i.
      exists (d, id). split; [reflexivity|]. apply filter_In. split; [exact Hin|].
      simpl. destruct (Z.ltb_spec now d) as [|Hle]; [reflexivity|].
      exfalso. apply Hnot. exists (d, id). split; [reflexivity|].
      apply filter_In. split; [exact Hin|]. simpl. lia.
    + intros ([d i] & Hi & Hin). simpl in Hi. subst i.
      apply filter_In in Hin as [Hin Hlate]. simpl in Hlate.
      split; [exists (d, id); auto|].
      intros ([d' i] & Hi & Hin'). simpl in Hi. subst i.
      apply filter_In in Hin' as [Hin' Hearly]. simpl in Hearly.
      pose proof (NoDup_ids_same_due _ _ _ _ Hnd Hin Hin'). lia.
  - rewrite (filter_dues (fun d => now <? d)).
    etransitivity; [|exact Hsub].
    clear. induction (List.map fst (timers st)) as [|x l IH]; simpl; [constructor|].
    destruct (now <? x); now constructor.
Qed.

Lemma isEventProcessed_tracked ds p now ev id st :
  tracked ds st -> tracked (ds ++ [(p, now, ev)]) (snd (isEventProcessed now id st)).
Proof.
  intros (Hnd & Hset & Hsub). unfold tracked, isEventProcessed.
  destruct (bool_decide (id ∈ processedEvents st)) eqn:E; simpl.
  - split; [exact Hnd|]. split; [exact Hset|].
    rewrite List.map_app. now apply sublist_inserts_r.
  - apply bool_decide_eq_false in E. rewrite !List.map_app. simpl. split; [|split].
    + apply NoDup_app. split; [exact Hnd|]. split; [|apply NoDup_singleton].
      intros x Hx Hx'. apply list_elem_of_In in Hx' as [<-|[]].
      apply E. rewrite Hset. now apply elem_of_list_to_set.
    + rewrite Hset. apply set_eq. intros x.
      rewrite elem_of_union, elem_of_singleton, !elem_of_list_to_set,
        !list_elem_of_In, in_app_iff. simpl. intuition congruence.
    + apply sublist_app; [exact Hsub|]. unfold delivery_time. simpl. reflexivity.
Qed.

Lemma tracked_frame ds st st' : handler_frame cfg st st' -> tracked ds st -> tracked ds st'.
Proof. intros (_ & P & T & _) H. unfold tracked in *. now rewrite P, T. Qed.

Lemma onMessage_tracked ds p now ev st :
  tracked ds st -> tracked (ds ++ [(p, now, ev)]) (snd (onMessage cfg p now ev st)).
Proof.
  intros H. apply (runTimers_tracked _ now) in H.
  assert (Hskip : tracked (ds ++ [(p, now, ev)]) (runTimers now st)).
  { destruct H as (Hnd & Hset & Hsub). split; [exact Hnd|]. split; [exact Hset|].
    rewrite List.map_app. now apply sublist_inserts_r. }
  unfold onMessage. destruct (truthy_opt (event_id ev)) as [id|].
  - pose proof (isEventProcessed_tracked ds p now ev id _ H) as H1.
    destruct (isEventProcessed now id (runTimers now st)) as [[|] st1]; simpl in *.
    + exact H1.
    + eapply tracked_frame; [apply pipeline_frame|exact H1].
  - eapply tracked_frame; [apply pipeline_frame|exact Hskip].
Qed.

Lemma deliverAll_tracked ds0 ds st :
  tracked ds0 st -> tracked (ds0 ++ ds) (snd (deliverAll cfg ds st)).
Proof.
  revert ds0 st. induction ds as [|[[p now] ev] ds IH]; intros ds0 st H; simpl.
  - now rewrite app_nil_r.
  - pose proof (onMessage_tracked ds0 p now ev st H) as H1.
    destruct (onMessage cfg p now ev st) as [o st1]. simpl in H1.
    specialize (IH _ _ H1). rewrite <- app_assoc in IH. simpl in IH.
    now destruct (deliverAll cfg ds st1).
Qed.

Lemma tracked_initial : tracked [] initial_state.
Proof. split; [constructor|]. split; [reflexivity|constructor]. Qed.

Lemma deliverAll_snoc ds p now ev st :
  snd (deliverAll cfg (ds ++ [(p, now, ev)]) st)
  = snd (onMessage cfg p now ev (snd (deliverAll cfg ds st))).
Proof.
  revert st. induction ds as [|[[p' now'] ev'] ds IH]; intros st; simpl.
  - now destruct (onMessage cfg p now ev st).
  - destruct (onMessage cfg p' now' ev' st) as [o st1]. specialize (IH st1).
    destruct (deliverAll cfg (ds ++ [(p, now, ev)]) st1),
             (deliverAll cfg ds st1). exact IH.
Qed.

(** After a delivery at [now], every pending timer expires later than [now]. *)
Lemma onMessage_timers_later p now ev st due id :
  In (due, id) (timers (snd (onMessage cfg p now ev st))) -> now < due.
Proof.
  assert (Hrun : forall d i, In (d, i) (timers (runTimers now st)) -> now < d).
  { intros d i H. unfold runTimers in H. simpl in H.
    apply filter_In in H as [_ H]. simpl in H. lia. }
  rewrite onMessage_cases. destruct (truthy_opt (event_id ev)) as [id'|].
  - destruct (bool_decide (id' ∈ processedEvents (runTimers now st))) eqn:E; simpl.
    + apply Hrun.
    + destruct (pipeline_frame cfg p ev (snd (isEventProcessed now id' (runTimers now st))))
        as (_ & _ & T & _).
      rewrite T. unfold isEventProcessed. rewrite E. simpl.
      intros H. apply in_app_iff in H as [H|[[= <- _]|[]]]; [eauto|].
      unfold EVENT_EXPIRY_MS. lia.
  - destruct (pipeline_frame cfg p ev (runTimers now st)) as (_ & _ & T & _).
    rewrite T. apply Hrun.
Qed.

(** X13.  After any deliveries from the start of the process, the last one
    at time [now], the ids the cache remembers are exactly those with a
    pending timer, and there are at most as many as deliveries made less than
    [EVENT_EXPIRY_MS] before [now]: the cache does not grow with the number
    of events ever seen. *)
Theorem dedup_memory_bound ds p now ev :
  let all := ds ++ [(p, now, ev)] in
  let st := snd (deliverAll cfg all initial_state) in
  (forall id, id ∈ processedEvents st <-> exists due, In (due, id) (timers st)) /\
  (size (processedEvents st)
   <= length (List.filter
                (fun d => (now <? delivery_time d + EVENT_EXPIRY_MS)%Z) all))%nat.
Proof.
  intros all st.
  destruct (deliverAll_tracked [] all initial_state tracked_initial) as (Hnd & Hset & Hsub).
  fold st in Hnd, Hset, Hsub. simpl in Hsub. split.
  - intros id. rewrite Hset, elem_of_list_to_set, list_elem_of_In, in_map_iff. split.
    + intros ([d i] & Hi & Hin). simpl in Hi. subst i. eauto.
    + intros [d Hin]. exists (d, id). auto.
  - rewrite Hset, size_list_to_set by exact Hnd.
    rewrite length_map, <- (length_map fst).
    assert (Hlater : forall d : Z, In d (List.map fst (timers st)) -> (now <? d)%Z = true).
    { intros d Hd. apply in_map_iff in Hd as ([d' i] & <- & Hin). simpl.
      subst st all. rewrite deliverAll_snoc in Hin.
      apply onMessage_timers_later in Hin. lia. }
    rewrite <- (filter_all _ _ _ Hlater).
    apply (sublist_of_filter (fun d => now <? d)) in Hsub.
    apply sublist_length in Hsub. etransitivity; [exact Hsub|].
    clear. induction all as [|d l IH]; simpl; [lia|].
    destruct (now <? delivery_time d + EVENT_EXPIRY_MS); simpl; lia.
Qed.

(** X14.  Every remembered id is forgotten in the end: once [EVENT_EXPIRY_MS]
    has passed since the last delivery, the timers that run leave the cache
    empty and no timer pending. *)
Theorem remembered_ids_expire ds now :
  Forall (fun d => delivery_time d + EVENT_EXPIRY_MS <= now) ds ->
  let st := runTimers now (snd (deliverAll cfg ds initial_state)) in
  processedEvents st = ∅ /\ timers st = [].
Proof.
  intros Hall st.
  destruct (deliverAll_tracked [] ds initial_state tracked_initial) as (Hnd & Hset & Hsub).
  simpl in Hsub.
  set (st0 := snd (deliverAll cfg ds initial_state)) in *.
  assert (Hdue : forall t, In t (timers st0) -> fst t <= now).
  { intros t Ht. apply (in_map fst), list_elem_of_In in Ht.
    pose proof (elem_of_sublist _ _ _ Ht Hsub) as Hm.
    apply list_elem_of_In, in_map_iff in Hm as (d & Hd & Hin).
    rewrite <- Hd. rewrite Forall_forall in Hall. apply Hall.
    now apply list_elem_of_In. }
  assert (Hnone : List.filter (fun t => now <? fst t) (timers st0) = []).
  { clear -Hdue. induction (timers st0) as [|t l IH]; simpl; [reflexivity|].
    destruct (Z.ltb_spec now (fst t)) as [Hlt|_].
    - specialize (Hdue t (or_introl eq_refl)). lia.
    - apply IH. intros t' Ht'. apply Hdue. now right. }
  destruct (runTimers_tracked ds now st0 (conj Hnd (conj Hset Hsub))) as (_ & Hset' & _).
  fold st in Hset'. split.
  - rewrite Hset'. subst st. unfold runTimers. simpl. now rewrite Hnone.
  - subst st. unfold runTimers. simpl. exact Hnone.
Qed.

End CacheContents.

(** ** A file from take-over to its terminal status *)

Section Lifecycle.
Context (cfg : Config).
Import FileService.

Lemma assignStatus_app_r key s l l' :
  findByKey key l = None -> assignStatus key s (l ++ l') = l ++ assignStatus key s l'.
Proof.
  unfold findByKey. induction l as [|x l IH]; simpl; [reflexivity|].
  destruct (String.eqb (fileKey x) key); [discriminate|].
  intros H. now rewrite IH.
Qed.

Lemma filter_isPending_app l l' :
  List.filter isPending (l ++ l') = List.filter isPending l ++ List.filter isPending l'.
Proof. apply List.filter_app. Qed.

(** X15.  A file taken over under an unused key and then reported with a
    terminal status, with no file-system failure on the way, leaves the
    store as if it had never been pending: the update returns true, the
    record is kept with that status after the records that were there, its
    blob is gone, and [getPendingFiles] lists what it listed before the file
    came in. *)
Theorem take_over_then_terminal_status f1 f2 f3 uuid now src name s st c :
  findByKey uuid (files st) = None ->
  rename_fault f1 = false -> disk st !! src = Some c -> write_fault f1 = false ->
  isTerminal s = true -> write_fault f2 = false -> unlink_fault f2 = false ->
  let localFileName := if truthy name then name else uuid in
  let st1 := snd (addFile cfg f1 uuid now src name st) in
  let res := updateFileStatus cfg f2 uuid s st1 in
  fst res = true /\
  files (snd res) = files st ++ [mkFileRecord uuid localFileName s now] /\
  disk (snd res) !! path_join cfg (FILE_MEDIA_DIR cfg) localFileName = None /\
  fst (getPendingFiles cfg f3 (snd res)) = List.filter isPending (files st).
Proof.
  intros Hfresh Hr Hs Hw1 Ht Hw2 Hu localFileName st1 res.
  set (new := mkFileRecord uuid localFileName Pending now).
  assert (Hfiles1 : files st1 = files st ++ [new])
    by apply (addFile_moved_files cfg _ _ _ _ _ _ _ Hr Hs).
  assert (Hfound : findByKey uuid (files st1) = Some new).
  { rewrite Hfiles1, (findByKey_app_r _ _ _ Hfresh). unfold findByKey. simpl.
    now rewrite String.eqb_refl. }
  assert (Hfiles2 : files (snd res) = files st ++ [mkFileRecord uuid localFileName s now]).
  { subst res. rewrite (updateFileStatus_files cfg _ _ _ _ _ Hfound), Hfiles1.
    rewrite (assignStatus_app_r _ _ _ _ Hfresh). simpl. now rewrite String.eqb_refl. }
  split; [|split; [|split]].
  - subst res. now rewrite (updateFileStatus_found cfg _ _ _ _ _ Hfound).
  - exact Hfiles2.
  - subst res. rewrite (updateFileStatus_found cfg _ _ _ _ _ Hfound). simpl.
    rewrite Ht, Hu. apply unlink_gone.
  - unfold getPendingFiles. simpl.
    rewrite loadState_consistent
      by (subst res; now apply (updateFileStatus_snapshot cfg _ _ _ _ _ Hfound)).
    rewrite Hfiles2, filter_isPending_app. simpl.
    unfold isPending at 2. simpl.
    rewrite bool_decide_eq_false_2 by (destruct s; discriminate).
    apply app_nil_r.
Qed.

End Lifecycle.

(** ** The dedup gate of the standalone bot (index.js) *)

Section StandaloneBot.
Import IndexJs.

Lemma bot_ids_same_due (l : list (Z * option string)) d d' id :
  NoDup (List.map snd l) -> In (d, id) l -> In (d', id) l -> d = d'.
Proof.
  induction l as [|x l IH]; simpl; [easy|].
  intros H. apply NoDup_cons in H as [Hx Hl].
  assert (Hno : forall e, In (e, id) l -> snd x <> id).
  { intros e He Heq. apply Hx. apply list_elem_of_In. rewrite Heq.
    apply (in_map snd) in He. exact He. }
  intros [->|H1] [E|H2].
  - congruence.
  - exfalso. now apply (Hno d').
  - subst x. exfalso. now apply (Hno d).
  - auto.
Qed.

Lemma bot_ids_filter (P : Z * option string -> bool) (l : list (Z * option string)) :
  NoDup (List.map snd l) -> NoDup (List.map snd (List.filter P l)).
Proof.
  induction l as [|x l IH]; simpl; [auto|].
  intros H. apply NoDup_cons in H as [Hx Hl].
  destruct (P x); simpl; [|auto].
  apply NoDup_cons. split; [|auto].
  intros Hin. apply Hx. apply list_elem_of_In in Hin. apply list_elem_of_In.
  apply in_map_iff in Hin as (y & Hy & Hin). apply filter_In in Hin as [Hin _].
  apply in_map_iff. eauto.
Qed.

Lemma bot_runTimers_wf now b : cache_wf b -> cache_wf (runTimers now b).
Proof.
  intros [Hnd Hin]. unfold cache_wf, runTimers. simpl. split.
  - now apply bot_ids_filter.
  - intros due id H. apply filter_In in H as [H Hlate].
    apply elem_of_difference. split; [eauto|].
    rewrite elem_of_list_to_set. intros Hd. apply list_elem_of_In in Hd.
    apply in_map_iff in Hd as ([d' id'] & Heq & Hd). simpl in Heq. subst id'.
    apply filter_In in Hd as [Hd Hearly]. simpl in *.
    pose proof (bot_ids_same_due _ _ _ _ Hnd H Hd). lia.
Qed.

Lemma bot_isEventProcessed_wf now id b :
  cache_wf b -> cache_wf (snd (isEventProcessed now id b)).
Proof.
  intros [Hnd Hin]. unfold cache_wf, isEventProcessed.
  destruct (bool_decide (id ∈ processedEvents b)) eqn:E; simpl; [now split|].
  apply bool_decide_eq_false in E. split.
  - rewrite List.map_app. simpl. apply NoDup_app. split; [exact Hnd|]. split.
    + intros x Hx Hx'. apply list_elem_of_In in Hx' as [<-|[]].
      apply list_elem_of_In, in_map_iff in Hx as ([d i] & Heq & Hx).
      simpl in Heq. subst i. eauto.
    + apply NoDup_singleton.
  - intros due i H. apply in_app_iff in H as [H|[[= <- <-]|[]]].
    + apply elem_of_union_r. eauto.
    + apply elem_of_union_l. now apply elem_of_singleton.
Qed.

Lemma bot_isEventProcessed_fresh now id b :
  cache_wf b -> id ∉ processedEvents b ->
  fst (isEventProcessed now id b) = false /\
  armed now id (snd (isEventProcessed now id b)).
Proof.
  intros [Hnd Hin] Hfresh. unfold armed, isEventProcessed.
  rewrite bool_decide_eq_false_2 by exact Hfresh. simpl. split; [reflexivity|].
  split; [apply elem_of_union_l; now apply elem_of_singleton|]. split.
  - apply in_app_iff. right. now left.
  - intros due H. apply in_app_iff in H as [H|[[= <-]|[]]]; [|reflexivity].
    exfalso. eauto.
Qed.

Lemma bot_runTimers_armed t0 id now b :
  now < t0 + EVENT_EXPIRY_MS -> armed t0 id b -> armed t0 id (runTimers now b).
Proof.
  intros Hnow (Hin & Htimer & Hall). unfold armed, runTimers. simpl. split; [|split].
  - apply elem_of_difference. split; [exact Hin|].
    rewrite elem_of_list_to_set. intros Hd. apply list_elem_of_In in Hd.
    apply in_map_iff in Hd as ([d i] & Heq & Hd). simpl in Heq. subst i.
    apply filter_In in Hd as [Hd Hearly]. simpl in Hearly.
    apply Hall in Hd. lia.
  - apply filter_In. split; [exact Htimer|]. simpl. lia.
  - intros due H. apply filter_In in H as [H _]. auto.
Qed.

Lemma bot_runTimers_expired t0 id now b :
  t0 + EVENT_EXPIRY_MS < now -> armed t0 id b -> id ∉ processedEvents (runTimers now b).
Proof.
  intros Hnow (Hin & Htimer & Hall). unfold runTimers. simpl.
  intros H. apply elem_of_difference in H as [_ H]. apply H.
  rewrite elem_of_list_to_set. apply list_elem_of_In.
  apply in_map_iff. exists (t0 + EVENT_EXPIRY_MS, id). split; [reflexivity|].
  apply filter_In. split; [exact Htimer|]. simpl. lia.
Qed.

Lemma bot_isEventProcessed_armed t0 id now id' b :
  armed t0 id b -> armed t0 id (snd (isEventProcessed now id' b)).
Proof.
  intros (Hin & Htimer & Hall). unfold armed, isEventProcessed.
  destruct (bool_decide (id' ∈ processedEvents b)) eqn:E; simpl; [now repeat split|].
  apply bool_decide_eq_false in E. split; [|split].
  - now apply elem_of_union_r.
  - apply in_app_iff. now left.
  - intros due H. apply in_app_iff in H as [H|[[= _ ->]|[]]]; [auto|].
    contradiction.
Qed.

(** The handler past its check changes the cards only. *)
Lemma bot_onMessage_cache send_fails now ev b :
  processedEvents (snd (onMessage send_fails now ev b))
    = processedEvents (snd (isEventProcessed now (event_id ev) (runTimers now b))) /\
  timers (snd (onMessage send_fails now ev b))
    = timers (snd (isEventProcessed now (event_id ev) (runTimers now b))).
Proof.
  unfold onMessage.
  destruct (isEventProcessed now (event_id ev) (runTimers now b)) as [[|] b1];
    [now split|].
  destruct (content ev); now split.
Qed.

Lemma bot_onMessage_armed t0 id send_fails now ev b :
  now < t0 + EVENT_EXPIRY_MS -> armed t0 id b ->
  armed t0 id (snd (onMessage send_fails now ev b)).
Proof.
  intros Hnow H. apply (bot_runTimers_armed _ _ now) in H; [|exact Hnow].
  apply (bot_isEventProcessed_armed _ _ now (event_id ev)) in H.
  destruct (bot_onMessage_cache send_fails now ev b) as [P T].
  unfold armed in *. now rewrite P, T.
Qed.

Lemma bot_deliverAll_armed t0 id ds b :
  Forall (fun d => snd (fst d) < t0 + EVENT_EXPIRY_MS) ds -> armed t0 id b ->
  armed t0 id (snd (deliverAll ds b)).
Proof.
  revert b. induction ds as [|[[sf now] ev] ds IH]; simpl; intros b Hall H; [exact H|].
  apply Forall_cons in Hall as [Hnow Hall]. simpl in Hnow.
  pose proof (bot_onMessage_armed t0 id sf now ev b Hnow H) as H1.
  destruct (onMessage sf now ev b) as [o b1].
  specialize (IH b1 Hall H1). now destruct (deliverAll ds b1).
Qed.

Lemma bot_onMessage_wf send_fails now ev b :
  cache_wf b -> cache_wf (snd (onMessage send_fails now ev b)).
Proof.
  intros H. apply (bot_runTimers_wf now), (bot_isEventProcessed_wf now (event_id ev)) in H.
  destruct (bot_onMessage_cache send_fails now ev b) as [P T].
  unfold cache_wf in *. now rewrite P, T.
Qed.

(** The invariant holds in every state the script can reach. *)
Lemma bot_cache_wf_reachable ds : cache_wf (snd (deliverAll ds start)).
Proof.
  assert (G : forall b, cache_wf b -> cache_wf (snd (deliverAll ds b))).
  { induction ds as [|[[sf now] ev] ds IH]; simpl; intros b H; [exact H|].
    pose proof (bot_onMessage_wf sf now ev b H) as H1.
    destruct (onMessage sf now ev b) as [o b1].
    specialize (IH b1 H1). now destruct (deliverAll ds b1). }
  apply G. split; [constructor|]. intros due id [].
Qed.

(** X16.  The standalone bot checks every event id, the empty one and a
    missing one included.  When an id that is not remembered is delivered at
    [t0], that delivery gets past the check; it sends one card when the
    content parses and none when it does not.  After any further deliveries
    made before [t0 + EVENT_EXPIRY_MS], a delivery with the same id before
    that time is ignored and sends nothing, whatever its content, and a
    delivery after that time gets past the check again. *)
Theorem bot_deduplicates_every_id send0 t0 ev b mid :
  cache_wf b ->
  event_id ev ∉ processedEvents (runTimers t0 b) ->
  Forall (fun d => snd (fst d) < t0 + EVENT_EXPIRY_MS) mid ->
  let first := onMessage send0 t0 ev b in
  let b1 := snd (deliverAll mid (snd first)) in
  (fst first <> IgnoredDuplicate /\
   (content ev = None -> fst first = Unhandled /\ cards (snd first) = cards b) /\
   (forall text, content ev = Some text ->
      exists sent, cards (snd first) = cards b ++ [mkCard (chat_id ev) text sent])) /\
  (forall send1 t1 ev1,
     event_id ev1 = event_id ev -> t1 < t0 + EVENT_EXPIRY_MS ->
     fst (onMessage send1 t1 ev1 b1) = IgnoredDuplicate /\
     cards (snd (onMessage send1 t1 ev1 b1)) = cards b1) /\
  (forall send2 t2 ev2,
     event_id ev2 = event_id ev -> t0 + EVENT_EXPIRY_MS < t2 ->
     fst (onMessage send2 t2 ev2 b1) <> IgnoredDuplicate).
Proof.
  intros Hwf Hfresh Hmid first b1.
  pose proof (bot_isEventProcessed_fresh t0 (event_id ev) _ (bot_runTimers_wf t0 _ Hwf)
                Hfresh) as [Hf Harm].
  assert (Harm0 : armed t0 (event_id ev) (snd first)).
  { destruct (bot_onMessage_cache send0 t0 ev b) as [P T].
    unfold armed in *. fold first in P, T. now rewrite P, T. }
  assert (Harm1 : armed t0 (event_id ev) b1)
    by (subst b1; now apply bot_deliverAll_armed).
  split; [|split].
  - subst first. unfold onMessage.
    unfold isEventProcessed in *. rewrite bool_decide_eq_false_2 by exact Hfresh.
    simpl. destruct (content ev) as [text|]; simpl.
    + split; [now destruct (negb _)|]. split; [discriminate|].
      intros t [= <-]. eauto.
    + split; [discriminate|]. split; [auto|]. discriminate.
  - intros send1 t1 ev1 Hid Ht1.
    pose proof (bot_runTimers_armed t0 (event_id ev) t1 b1 Ht1 Harm1) as [Hin _].
    unfold onMessage, isEventProcessed. rewrite Hid.
    rewrite bool_decide_eq_true_2 by exact Hin. simpl. auto.
  - intros send2 t2 ev2 Hid Ht2.
    pose proof (bot_runTimers_expired t0 (event_id ev) t2 b1 Ht2 Harm1) as Hgone.
    unfold onMessage, isEventProcessed. rewrite Hid.
    rewrite bool_decide_eq_false_2 by exact Hgone.
    destruct (content ev2); simpl; [now destruct (negb _)|discriminate].
Qed.

End StandaloneBot.

(** * The further properties on the sample deployment *)

(** X1 on the sample store: saved, then loaded by a process that starts
    with an empty collection. *)
Lemma snapshot_round_trip_witness :
  write_fault no_faults = false /\
  files (FileService.loadState sample_cfg no_faults
           (with_files [] (FileService.saveState sample_cfg no_faults sample_store)))
    = [photo].
Proof.
  assert (W : write_fault no_faults = false) by reflexivity.
  split; [exact W|].
  exact (proj2 (snapshot_round_trip sample_cfg no_faults no_faults sample_store W)
           [] eq_refl).
Defined.

(** X2 on the sample store: the staged resource is taken over as b.jpg. *)
Lemma addFile_success_is_listed_witness :
  rename_fault no_faults = false /\
  disk sample_store_staged !! "/srv/temp_uploads/b" = Some (Bytes "second") /\
  write_fault no_faults = false /\
  fst (FileService.getPendingFiles sample_cfg no_faults
         (snd (FileService.addFile sample_cfg no_faults "k2" 5 "/srv/temp_uploads/b"
                 "b.jpg" sample_store_staged)))
    = [photo; mkFileRecord "k2" "b.jpg" Pending 5].
Proof.
  assert (R : rename_fault no_faults = false) by reflexivity.
  assert (S : disk sample_store_staged !! "/srv/temp_uploads/b" = Some (Bytes "second"))
    by (vm_compute; reflexivity).
  assert (W : write_fault no_faults = false) by reflexivity.
  split; [exact R|]. split; [exact S|]. split; [exact W|].
  exact (proj1 (addFile_success_is_listed sample_cfg no_faults no_faults "k2" 5
                  "/srv/temp_uploads/b" "b.jpg" sample_store_staged (Bytes "second")
                  R S W)).
Defined.

(** X3 on the sample store: the rewrite is refused while b.jpg is taken over,
    and the reload leaves the photo alone in the collection. *)
Lemma failed_rewrite_then_reload_drops_record_witness :
  rename_fault write_refused = false /\
  disk sample_store_staged !! "/srv/temp_uploads/b" = Some (Bytes "second") /\
  write_fault write_refused = true /\
  disk sample_store_staged !! FILE_DATA_FILE sample_cfg = Some (Snapshot [photo]) /\
  read_fault no_faults = false /\
  "/srv/temp_uploads/b" <> FILE_DATA_FILE sample_cfg /\
  path_join sample_cfg (FILE_MEDIA_DIR sample_cfg) "b.jpg" <> FILE_DATA_FILE sample_cfg /\
  files (snd (FileService.getPendingFiles sample_cfg no_faults
                (snd (FileService.addFile sample_cfg write_refused "k2" 5
                        "/srv/temp_uploads/b" "b.jpg" sample_store_staged))))
    = [photo] /\
  disk (snd (FileService.getPendingFiles sample_cfg no_faults
               (snd (FileService.addFile sample_cfg write_refused "k2" 5
                       "/srv/temp_uploads/b" "b.jpg" sample_store_staged))))
    !! path_join sample_cfg (FILE_MEDIA_DIR sample_cfg) "b.jpg" = Some (Bytes "second").
Proof.
  assert (R : rename_fault write_refused = false) by reflexivity.
  assert (S : disk sample_store_staged !! "/srv/temp_uploads/b" = Some (Bytes "second"))
    by (vm_compute; reflexivity).
  assert (W : write_fault write_refused = true) by reflexivity.
  assert (O : disk sample_store_staged !! FILE_DATA_FILE sample_cfg
              = Some (Snapshot [photo])) by (vm_compute; reflexivity).
  assert (D : read_fault no_faults = false) by reflexivity.
  assert (N1 : "/srv/temp_uploads/b" <> FILE_DATA_FILE sample_cfg)
    by (vm_compute; discriminate).
  assert (N2 : path_join sample_cfg (FILE_MEDIA_DIR sample_cfg) "b.jpg"
               <> FILE_DATA_FILE sample_cfg) by (vm_compute; discriminate).
  pose proof (failed_rewrite_then_reload_drops_record sample_cfg write_refused no_faults
                "k2" 5 "/srv/temp_uploads/b" "b.jpg" sample_store_staged (Bytes "second")
                [photo] R S W O D N1 N2) as T.
  cbv zeta in T.
  do 7 (split; [assumption|]).
  split; [exact (proj1 (proj2 T))|].
  exact (proj2 (proj2 (proj2 T))).
Defined.

(** X5 on the sample store: Completed for the photo leaves the staged
    resource alone. *)
Lemma updateFileStatus_disk_footprint_witness :
  "/srv/temp_uploads/b" <> FILE_DATA_FILE sample_cfg /\
  (FileService.isTerminal Completed = true ->
   FileService.getFilePath sample_cfg "k1" sample_store_staged
     <> Some "/srv/temp_uploads/b") /\
  disk (snd (FileService.updateFileStatus sample_cfg no_faults "k1" Completed
               sample_store_staged)) !! "/srv/temp_uploads/b"
    = disk sample_store_staged !! "/srv/temp_uploads/b".
Proof.
  assert (N : "/srv/temp_uploads/b" <> FILE_DATA_FILE sample_cfg)
    by (vm_compute; discriminate).
  assert (B : FileService.isTerminal Completed = true ->
              FileService.getFilePath sample_cfg "k1" sample_store_staged
                <> Some "/srv/temp_uploads/b")
    by (intros _; vm_compute; discriminate).
  split; [exact N|]. split; [exact B|].
  exact (updateFileStatus_disk_footprint sample_cfg no_faults "k1" Completed
           sample_store_staged "/srv/temp_uploads/b" N B).
Defined.


(** X7 on the store with two records named photo.jpg: Completed for the
    first strands the second. *)
Lemma shared_name_update_strands_the_other_witness :
  FileService.findByKey "k1" (files shared_store) = Some photo /\
  FileService.findByKey "k2" (files shared_store) = Some photo_again /\
  "k1" <> "k2" /\ fileName photo = fileName photo_again /\
  FileService.isTerminal Completed = true /\ unlink_fault no_faults = false /\
  FileService.findByKey "k2"
    (files (snd (FileService.updateFileStatus sample_cfg no_faults "k1" Completed
                   shared_store))) = Some photo_again /\
  fst (FileController.downloadFile sample_cfg no_faults "k2"
         (snd (FileService.updateFileStatus sample_cfg no_faults "k1" Completed
                 shared_store)))
    = Rejected (FileController.InternalServerErrorException
                  FileController.ReadFromDiskFailed).
Proof.
  assert (F1 : FileService.findByKey "k1" (files shared_store) = Some photo)
    by reflexivity.
  assert (F2 : FileService.findByKey "k2" (files shared_store) = Some photo_again)
    by reflexivity.
  assert (K : "k1" <> "k2") by discriminate.
  assert (N : fileName photo = fileName photo_again) by reflexivity.
  assert (S : FileService.isTerminal Completed = true) by reflexivity.
  assert (U : unlink_fault no_faults = false) by reflexivity.
  pose proof (shared_name_update_strands_the_other sample_cfg no_faults no_faults
                "k1" "k2" Completed shared_store photo photo_again F1 F2 K N S U) as T.
  cbv zeta in T.
  do 6 (split; [assumption|]).
  split; [exact (proj1 T)|].
  exact (proj2 (proj2 (proj2 T))).
Defined.

(** X14 on one delivery at time 0: ten minutes later the cache is empty. *)
Lemma remembered_ids_expire_witness :
  Forall (fun d => delivery_time d + EVENT_EXPIRY_MS <= 600000)
         [(sample_platform, 0, image_event (Some "ev1"))] /\
  processedEvents
    (FeishuService.runTimers 600000
       (snd (FeishuService.deliverAll sample_cfg
               [(sample_platform, 0, image_event (Some "ev1"))] initial_state))) = ∅.
Proof.
  assert (A : Forall (fun d => delivery_time d + EVENT_EXPIRY_MS <= 600000)
                     [(sample_platform, 0, image_event (Some "ev1"))]).
  { constructor; [|constructor]. vm_compute. discriminate. }
  split; [exact A|].
  exact (proj1 (remembered_ids_expire sample_cfg _ 600000 A)).
Defined.

(** The cache does hold the id in between. *)
Example remembered_id_before_expiry :
  elements (processedEvents
              (FeishuService.runTimers 599999
                 (snd (FeishuService.deliverAll sample_cfg
                         [(sample_platform, 0, image_event (Some "ev1"))]
                         initial_state)))) = ["ev1"].
Proof. vm_compute. reflexivity. Qed.

(** X15 on the sample store: the staged resource is taken over as b.jpg and
    reported Failed. *)
Lemma take_over_then_terminal_status_witness :
  FileService.findByKey "k2" (files sample_store_staged) = None /\
  rename_fault no_faults = false /\
  disk sample_store_staged !! "/srv/temp_uploads/b" = Some (Bytes "second") /\
  write_fault no_faults = false /\
  FileService.isTerminal Failed = true /\ unlink_fault no_faults = false /\
  files (snd (FileService.updateFileStatus sample_cfg no_faults "k2" Failed
                (snd (FileService.addFile sample_cfg no_faults "k2" 5
                        "/srv/temp_uploads/b" "b.jpg" sample_store_staged))))
    = files sample_store_staged ++ [mkFileRecord "k2" "b.jpg" Failed 5] /\
  fst (FileService.getPendingFiles sample_cfg no_faults
         (snd (FileService.updateFileStatus sample_cfg no_faults "k2" Failed
                 (snd (FileService.addFile sample_cfg no_faults "k2" 5
                         "/srv/temp_uploads/b" "b.jpg" sample_store_staged)))))
    = List.filter FileService.isPending (files sample_store_staged).
Proof.
  assert (F : FileService.findByKey "k2" (files sample_store_staged) = None)
    by reflexivity.
  assert (R : rename_fault no_faults = false) by reflexivity.
  assert (S : disk sample_store_staged !! "/srv/temp_uploads/b" = Some (Bytes "second"))
    by (vm_compute; reflexivity).
  assert (W : write_fault no_faults = false) by reflexivity.
  assert (T : FileService.isTerminal Failed = true) by reflexivity.
  assert (U : unlink_fault no_faults = false) by reflexivity.
  pose proof (take_over_then_terminal_status sample_cfg no_faults no_faults no_faults
                "k2" 5 "/srv/temp_uploads/b" "b.jpg" Failed sample_store_staged
                (Bytes "second") F R S W T W U) as L.
  cbv zeta in L.
  do 6 (split; [assumption|]).
  split; [exact (proj1 (proj2 L))|].
  exact (proj2 (proj2 (proj2 L))).
Defined.

(** X16 from the start of the script: two different messages delivered
    without an event id one second apart; the second is ignored. *)
Lemma bot_deduplicates_every_id_witness :
  IndexJs.cache_wf IndexJs.start /\
  (IndexJs.event_id (IndexJs.mkMessageEvent None "oc_chat" (Some (Some "hello")))
     ∉ IndexJs.processedEvents (IndexJs.runTimers 0 IndexJs.start)) /\
  Forall (fun d : (nat -> bool) * Z * IndexJs.MessageEvent =>
            snd (fst d) < 0 + EVENT_EXPIRY_MS) [] /\
  fst (IndexJs.onMessage (fun _ => false) 1000
         (IndexJs.mkMessageEvent None "oc_other" (Some (Some "another message")))
         (snd (IndexJs.onMessage (fun _ => false) 0
                 (IndexJs.mkMessageEvent None "oc_chat" (Some (Some "hello")))
                 IndexJs.start)))
    = IndexJs.IgnoredDuplicate.
Proof.
  assert (W : IndexJs.cache_wf IndexJs.start).
  { split; [constructor|]. intros due id []. }
  assert (N : IndexJs.event_id (IndexJs.mkMessageEvent None "oc_chat" (Some (Some "hello")))
              ∉ IndexJs.processedEvents (IndexJs.runTimers 0 IndexJs.start)).
  { intros H. vm_compute in H. discriminate. }
  assert (M : Forall (fun d : (nat -> bool) * Z * IndexJs.MessageEvent =>
                        snd (fst d) < 0 + EVENT_EXPIRY_MS) []) by constructor.
  pose proof (bot_deduplicates_every_id (fun _ => false) 0
                (IndexJs.mkMessageEvent None "oc_chat" (Some (Some "hello")))
                IndexJs.start [] W N M) as T.
  cbv zeta in T.
  split; [exact W|]. split; [exact N|]. split; [exact M|].
  exact (proj1 (proj1 (proj2 T) (fun _ => false) 1000
                  (IndexJs.mkMessageEvent None "oc_other" (Some (Some "another message")))
                  eq_refl eq_refl)).
Defined.
